(** * Levered project-finance engine: a shallow embedding of
      [src/model.py] and [src/sensitivity.py]

    Python [float] values are modelled by exact rationals ([Q], compared
    up to [==]); [int] values by [Z].  Every Python operation of the
    source that can raise is modelled as a computation in the [result]
    monad below: a division raises [ZeroDivisionError] on a zero divisor,
    [**] raises it on a zero base with a negative exponent.  Rounding,
    overflow, infinities and NaN of IEEE-754 arithmetic are outside this
    model; the module [FloatLoan] repeats [loan_schedule] on binary64
    numbers, to show where rounding changes its outcome. *)

From Stdlib Require Import QArith Qabs Qpower Qfield.
From Stdlib Require Import ZArith List Bool String Lia Lqa.
From Stdlib Require Import PrimFloat.
Import ListNotations.

Local Open Scope Q_scope.

(* ================================================================== *)
(** ** Python primitives *)

Module Py.

(** The exceptions the modelled code can raise.  [OverflowError] is
    that of a float power whose result exceeds the binary64 range; the
    exact arithmetic of [Q] never raises it. *)
Inductive exn : Type :=
| ZeroDivisionError
| IndexError
| ValueError (msg : string)
| OverflowError.

Inductive result (A : Type) : Type :=
| Ok (a : A)
| Raise (e : exn).
Arguments Ok {A} a.
Arguments Raise {A} e.

Definition bind {A B} (c : result A) (k : A -> result B) : result B :=
  match c with
  | Ok a => k a
  | Raise e => Raise e
  end.

Definition is_ok {A} (c : result A) : bool :=
  match c with Ok _ => true | Raise _ => false end.

(** [a / b] on floats. *)
Definition div (a b : Q) : result Q :=
  if Qeq_bool b 0 then Raise ZeroDivisionError else Ok (a / b).

(** [b ** e] with a float base and an int exponent. *)
Definition pow (b : Q) (e : Z) : result Q :=
  if Qeq_bool b 0 && (e <? 0)%Z then Raise ZeroDivisionError
  else Ok (b ^ e).

(** [a < b], [a > b], [a <= b], [a != b] as booleans. *)
Definition ltb (a b : Q) : bool := negb (Qle_bool b a).
Definition gtb (a b : Q) : bool := ltb b a.
Definition leb (a b : Q) : bool := Qle_bool a b.
Definition neqb (a b : Q) : bool := negb (Qeq_bool a b).

(** Two-argument [max] and [min]: the first argument wins a tie. *)
Definition max (a b : Q) : Q := if gtb b a then b else a.
Definition min (a b : Q) : Q := if ltb b a then b else a.

(** [math.isclose(a, b, rel_tol=1e-09, abs_tol=...)], as documented:
    [abs(a-b) <= max(rel_tol * max(abs(a), abs(b)), abs_tol)]. *)
Definition isclose (a b : Q) (abs_tol : Q) : bool :=
  let rel_tol := 0.000000001 in
  leb (Qabs (a - b))
      (max (rel_tol * max (Qabs a) (Qabs b)) abs_tol).

(** [sum(f(t, x) for t, x in enumerate(xs))], the index starting at
    [t]; the running total starts at 0 and grows left to right, and the
    first term that raises ends the sum. *)
Fixpoint sum_from (f : nat -> Q -> result Q) (t : nat) (xs : list Q)
         (acc : Q) : result Q :=
  match xs with
  | [] => Ok acc
  | x :: xs' =>
      bind (f t x) (fun v => sum_from f (S t) xs' (acc + v))
  end.

Definition sum_enumerate (f : nat -> Q -> result Q) (xs : list Q)
  : result Q :=
  sum_from f 0%nat xs 0.

(** [range(1, n + 1)]. *)
Definition range1 (n : Z) : list Z :=
  map Z.of_nat (seq 1 (Z.to_nat n)).

(** One-argument [min] over a non-empty list (first element [x]). *)
Definition min_list (x : Q) (xs : list Q) : Q :=
  fold_left (fun m y => if ltb y m then y else m) xs x.

(** Outcome of one pass through the body of a [for] loop that may
    [break] or [return]. *)
Inductive ctl (S V : Type) : Type :=
| Next (s : S)
| Break (s : S)
| Return (v : V).
Arguments Next {S V} s.
Arguments Break {S V} s.
Arguments Return {S V} v.

(** [for x in xs: body], threading the loop state and aborting on the
    first exception. *)
Fixpoint for_each {A S} (xs : list A) (body : A -> S -> result S)
         (s : S) : result S :=
  match xs with
  | [] => Ok s
  | x :: xs' => bind (body x s) (for_each xs' body)
  end.

End Py.

Import Py.

Notation "x <- c ;; k" := (Py.bind c (fun x => k))
  (at level 61, c at next level, right associativity).

(* ================================================================== *)
(** ** [src/model.py] *)

Module Model.

(** [npv(rate, cashflows)].  The exponent [t] of [enumerate] is never
    negative, so [**] itself cannot raise here; only the division can. *)
Definition npv (rate : Q) (cashflows : list Q) : result Q :=
  sum_enumerate (fun t cf => div cf ((1 + rate) ^ Z.of_nat t)) cashflows.

(** The derivative sum of the body of [irr]. *)
Definition d_npv (r : Q) (cashflows : list Q) : result Q :=
  sum_enumerate
    (fun t cf =>
       div (- inject_Z (Z.of_nat t) * cf) ((1 + r) ^ Z.of_nat (t + 1)))
    cashflows.

(** The literal [1e-12] of the derivative guard. *)
Definition abs_tol_d_npv : Q := 0.000000000001.

(** One pass through the loop body of [irr] at the estimate [r]. *)
Definition irr_body (cashflows : list Q) (tol : Q) (r : Q)
  : result (ctl Q Q) :=
  npv_val <- npv r cashflows ;;
  d_npv_val <- d_npv r cashflows ;;
  if isclose d_npv_val 0 abs_tol_d_npv then Ok (Break r)
  else
    q <- div npv_val d_npv_val ;;
    let new_r := r - q in
    if ltb (Qabs (new_r - r)) tol then Ok (Return new_r)
    else Ok (Next new_r).

(** [for _ in range(n): ...] of [irr], followed by [return r]. *)
Fixpoint irr_loop (cashflows : list Q) (tol : Q) (n : nat) (r : Q)
  : result Q :=
  match n with
  | O => Ok r
  | S n' =>
      c <- irr_body cashflows tol r ;;
      match c with
      | Next r' => irr_loop cashflows tol n' r'
      | Break r' => Ok r'
      | Return v => Ok v
      end
  end.

(** [irr(cashflows, guess, tol, maxiter)]. *)
Definition irr (cashflows : list Q) (guess tol : Q) (maxiter : Z)
  : result Q :=
  irr_loop cashflows tol (Z.to_nat maxiter) guess.

Definition default_guess : Q := 0.08.
Definition default_tol : Q := 0.000001.
Definition default_maxiter : Z := 200.

(** One dictionary of the list [loan_schedule] returns. *)
Record loan_entry : Type := mk_loan_entry {
  le_year : Z;
  le_payment : Q;
  le_interest : Q;
  le_principal : Q;
  le_balance : Q
}.

(** The constant payment computed before the loop of [loan_schedule]. *)
Definition loan_payment (principal rate : Q) (term_years : Z)
  : result Q :=
  if neqb rate 0 then
    p1 <- pow (1 + rate) term_years ;;
    p2 <- pow (1 + rate) term_years ;;
    annuity_factor <- div (rate * p1) (p2 - 1) ;;
    Ok (principal * annuity_factor)
  else
    div principal (inject_Z term_years).

(** The loop of [loan_schedule]: the state is the running balance. *)
Fixpoint loan_loop (years : list Z) (rate payment balance : Q)
  : list loan_entry :=
  match years with
  | [] => []
  | year :: years' =>
      let interest := balance * rate in
      let principal_paid := payment - interest in
      let balance' := max (balance - principal_paid) 0 in
      mk_loan_entry year payment interest principal_paid balance'
      :: loan_loop years' rate payment balance'
  end.

(** [loan_schedule(principal, rate, term_years)]. *)
Definition loan_schedule (principal rate : Q) (term_years : Z)
  : result (list loan_entry) :=
  payment <- loan_payment principal rate term_years ;;
  Ok (loan_loop (range1 term_years) rate payment principal).

(** The fields of a [projects] row that the engine reads. *)
Record project : Type := mk_project {
  capacity_mw : Q;
  cf_year1 : Q;
  degradation_pct : Q;
  ppa_price : Q;
  capex : Q;
  opex_annual : Q
}.

(** The fields of a [financing] row that the engine reads. *)
Record financing : Type := mk_financing {
  debt_pct : Q;
  interest_rate : Q;
  term_years : Z
}.

(** The [model] section of the configuration. *)
Record config : Type := mk_config {
  discount_rate : Q;
  tax_rate : Q;
  project_life_years : Z;
  opex_escalation : Q
}.

(** What one pass of the yearly loop appends to the four lists. *)
Record year_row : Type := mk_year_row {
  yr_cashflow : Q;
  yr_revenue : Q;
  yr_opex : Q;
  yr_debt_service : Q
}.

(** [loan[year - 1]["payment"] if year <= len(loan) else 0.0], for the
    years [1, 2, ...] the loop runs over. *)
Definition debt_service_of (loan : list loan_entry) (year : Z)
  : result Q :=
  if (year <=? Z.of_nat (List.length loan))%Z then
    match nth_error loan (Z.to_nat (year - 1)) with
    | Some e => Ok (le_payment e)
    | None => Raise IndexError
    end
  else Ok 0.

(** Body of the yearly loop of [compute_project_finance]; [year - 1]
    is never negative there, so the two powers cannot raise. *)
Definition year_body (proj : project) (cfg_tax_rate : Q) (years : Z)
           (cfg_opex_escalation : Q) (energy_mwh_year1 : Q)
           (loan : list loan_entry) (year : Z) : result year_row :=
  let production_mwh :=
    energy_mwh_year1 * ((1 - degradation_pct proj) ^ (year - 1)) in
  let revenue := production_mwh * 1000.0 * ppa_price proj in
  let opex_y :=
    opex_annual proj * ((1 + cfg_opex_escalation) ^ (year - 1)) in
  ds <- debt_service_of loan year ;;
  depreciation <- div (capex proj) (inject_Z years) ;;
  let taxable_income := revenue - opex_y - depreciation - ds in
  let tax := max (taxable_income * cfg_tax_rate) 0.0 in
  let after_tax_cf := revenue - opex_y - ds - tax + depreciation in
  Ok (mk_year_row after_tax_cf revenue opex_y ds).

(** The yearly loop: rows are appended in year order. *)
Definition year_loop (proj : project) (cfg_tax_rate : Q) (years : Z)
           (cfg_opex_escalation : Q) (energy_mwh_year1 : Q)
           (loan : list loan_entry) : result (list year_row) :=
  for_each (range1 years)
    (fun year rows =>
       row <- year_body proj cfg_tax_rate years cfg_opex_escalation
                energy_mwh_year1 loan year ;;
       Ok (rows ++ [row]))
    [].

(** The payback loop over [enumerate(series[1:], start=1)]: [tl] is
    the remainder of [series[1:]], [idx] the index of its head. *)
Fixpoint payback_loop (tl : list Q) (idx : Z) (cumulative : Q)
  : option Z :=
  match tl with
  | [] => None
  | cf :: tl' =>
      let cumulative' := cumulative + cf in
      if gtb cumulative' 0 then Some idx
      else payback_loop tl' (idx + 1)%Z cumulative'
  end.

Definition payback (series : list Q) : option Z :=
  payback_loop (tl series) 1%Z 0.0.

(** The DSCR loop over [enumerate(debt_service)]: [i] is the index of
    the head of [dss]. *)
Fixpoint dscr_loop (revenues opex_list : list Q) (dss : list Q)
         (i : nat) (dscr_values : list Q) : result (list Q) :=
  match dss with
  | [] => Ok dscr_values
  | ds :: dss' =>
      if leb ds 0 then
        dscr_loop revenues opex_list dss' (S i) dscr_values
      else
        match nth_error revenues i, nth_error opex_list i with
        | Some rev, Some opx =>
            let ebitda := rev - opx in
            q <- div ebitda ds ;;
            dscr_loop revenues opex_list dss' (S i) (dscr_values ++ [q])
        | _, _ => Raise IndexError
        end
  end.

(** [min(dscr_values) if dscr_values else None]. *)
Definition min_or_none (dscr_values : list Q) : option Q :=
  match dscr_values with
  | [] => None
  | x :: xs => Some (min_list x xs)
  end.

Definition min_dscr_of (revenues opex_list debt_service : list Q)
  : result (option Q) :=
  vs <- dscr_loop revenues opex_list debt_service 0%nat [] ;;
  Ok (min_or_none vs).

(** The dictionary [compute_project_finance] returns. *)
Record proforma : Type := mk_proforma {
  pf_irr : Q;
  pf_npv : Q;
  pf_payback_year : option Z;
  pf_min_dscr : option Q
}.

(** Capital structure lines of [compute_project_finance]. *)
Definition debt_principal (proj : project) (fin : financing) : Q :=
  capex proj * debt_pct fin.

Definition equity (proj : project) (fin : financing) : Q :=
  capex proj - debt_principal proj fin.

(** The four lists after the yearly loop, as rows. *)
Definition year_rows (proj : project) (fin : financing) (cfg : config)
  : result (list year_row) :=
  let energy_mwh_year1 := capacity_mw proj * cf_year1 proj * 8760.0 in
  loan <- loan_schedule (debt_principal proj fin) (interest_rate fin)
            (term_years fin) ;;
  year_loop proj (tax_rate cfg) (project_life_years cfg)
    (opex_escalation cfg) energy_mwh_year1 loan.

(** [series = [-equity] + cashflows]. *)
Definition series_of (proj : project) (fin : financing)
           (rows : list year_row) : list Q :=
  (- equity proj fin) :: map yr_cashflow rows.

(** [compute_project_finance(proj, fin, discount_rate, tax_rate, years,
    opex_escalation)], the last four arguments gathered in [cfg]. *)
Definition compute_project_finance (proj : project) (fin : financing)
           (cfg : config) : result proforma :=
  rows <- year_rows proj fin cfg ;;
  let series := series_of proj fin rows in
  irr_val <- irr series default_guess default_tol default_maxiter ;;
  npv_val <- npv (discount_rate cfg) series ;;
  let payback_year := payback series in
  min_dscr <- min_dscr_of (map yr_revenue rows) (map yr_opex rows)
                (map yr_debt_service rows) ;;
  Ok (mk_proforma irr_val npv_val payback_year min_dscr).

End Model.

Import Model.

(* ================================================================== *)
(** ** [src/sensitivity.py] *)

Module Sensitivity.

(** One dictionary appended to [results]. *)
Record sens_row : Type := mk_sens_row {
  sr_ppa_mult : Q;
  sr_capex_mult : Q;
  sr_debt_pct : Q;
  sr_irr : Q;
  sr_npv : Q;
  sr_payback_year : option Z;
  sr_min_dscr : option Q
}.

Definition ppa_mults : list Q := [0.90; 0.95; 1.00; 1.05; 1.10].
Definition capex_mults : list Q := [0.90; 1.00; 1.10].

Definition debt_levels (base_debt : Q) : list Q :=
  [Py.max 0.0 (base_debt - 0.10); base_debt;
   Py.min 0.95 (base_debt + 0.10)].

(** [temp_proj] and [temp_fin]: copies with three keys overwritten. *)
Definition temp_proj (proj : project) (ppa_m capex_m : Q) : project :=
  mk_project (capacity_mw proj) (cf_year1 proj) (degradation_pct proj)
    (ppa_price proj * ppa_m) (capex proj * capex_m) (opex_annual proj).

Definition temp_fin (fin : financing) (debt : Q) : financing :=
  mk_financing debt (interest_rate fin) (term_years fin).

(** Body of the innermost loop: evaluate one grid point and append
    its row to [results]. *)
Definition point_body (proj : project) (fin : financing) (cfg : config)
           (ppa_m capex_m debt : Q) (results : list sens_row)
  : result (list sens_row) :=
  out <- compute_project_finance (temp_proj proj ppa_m capex_m)
           (temp_fin fin debt) cfg ;;
  Ok (results ++
      [mk_sens_row ppa_m capex_m debt (pf_irr out) (pf_npv out)
         (pf_payback_year out) (pf_min_dscr out)]).

(** The three nested loops over the grid. *)
Definition sweep (proj : project) (fin : financing) (cfg : config)
  : result (list sens_row) :=
  let base_debt := debt_pct fin in
  for_each ppa_mults
    (fun ppa_m =>
       for_each capex_mults
         (fun capex_m =>
            for_each (debt_levels base_debt)
              (point_body proj fin cfg ppa_m capex_m)))
    [].

(** [run_sensitivity(project_id)] after the two database reads, whose
    outcomes are the optional rows [proj] and [fin]; the value is the
    list [results] that is then written out. *)
Definition run_sensitivity (proj : option project)
           (fin : option financing) (cfg : config)
  : result (list sens_row) :=
  match proj, fin with
  | Some p, Some f => sweep p f cfg
  | _, _ => Raise (ValueError "Missing project or financing")
  end.

End Sensitivity.

Import Sensitivity.

(* ================================================================== *)
(** ** Reference definitions the properties are stated against *)

Module Spec.

(** Running cumulative sum of the series up to and including index
    [t]. *)
Definition cumulative_sum (series : list Q) (t : nat) : Q :=
  fold_right Qplus 0 (firstn (S t) series).

(** [o] is the payback year of [series]: the first index [t >= 1]
    whose running cumulative sum, year 0 included, is strictly
    positive; [None] when no index within the horizon qualifies. *)
Definition is_payback (series : list Q) (o : option Z) : Prop :=
  match o with
  | Some y =>
      exists t : nat,
        y = Z.of_nat t /\ (1 <= t < List.length series)%nat /\
        0 < cumulative_sum series t /\
        forall s : nat, (1 <= s < t)%nat -> cumulative_sum series s <= 0
  | None =>
      forall s : nat,
        (1 <= s < List.length series)%nat -> cumulative_sum series s <= 0
  end.

(** [sum_{t = 0..n} g t x_t], accumulated from the left. *)
Definition sigma (g : nat -> Q -> Q) (xs : list Q) : Q :=
  fold_left (fun acc tx => acc + g (fst tx) (snd tx))
    (combine (seq 0 (List.length xs)) xs) 0.

(** [NPV(r) = sum cf_t / (1+r)^t]. *)
Definition npv_sum (r : Q) (cfs : list Q) : Q :=
  sigma (fun t cf => cf / (1 + r) ^ Z.of_nat t) cfs.

(** [dNPV/dr = sum -t * cf_t / (1+r)^(t+1)]. *)
Definition dnpv_sum (r : Q) (cfs : list Q) : Q :=
  sigma (fun t cf =>
           (- inject_Z (Z.of_nat t) * cf) / (1 + r) ^ Z.of_nat (t + 1))
    cfs.

(** The Newton-Raphson update. *)
Definition newton_next (cfs : list Q) (r : Q) : Q :=
  r - npv_sum r cfs / dnpv_sum r cfs.

(** Newton-Raphson with a budget of [n] iterations from the estimate
    [r]: stop on a derivative of magnitude at most [1e-12] with the
    current estimate, stop on a step shorter than [tol] with the new
    one, and give the last estimate when the budget is spent. *)
Fixpoint newton (cfs : list Q) (tol : Q) (n : nat) (r : Q) : Q :=
  match n with
  | O => r
  | S n' =>
      if Qle_bool (Qabs (dnpv_sum r cfs)) abs_tol_d_npv then r
      else
        let r' := newton_next cfs r in
        if Qle_bool tol (Qabs (r' - r)) then newton cfs tol n' r'
        else r'
  end.

(** The estimates at which the iteration body runs. *)
Fixpoint visited (cfs : list Q) (tol : Q) (n : nat) (r : Q) : list Q :=
  match n with
  | O => []
  | S n' =>
      r ::
      (if Qle_bool (Qabs (dnpv_sum r cfs)) abs_tol_d_npv then []
       else
         let r' := newton_next cfs r in
         if Qle_bool tol (Qabs (r' - r)) then visited cfs tol n' r'
         else [])
  end.

(** Number of sign changes along a series, zeros skipped. *)
Fixpoint sign_changes_from (last_sign : comparison) (xs : list Q)
  : nat :=
  match xs with
  | [] => 0%nat
  | x :: xs' =>
      match Qcompare 0 x, last_sign with
      | Eq, _ => sign_changes_from last_sign xs'
      | s, Eq => sign_changes_from s xs'
      | Lt, Lt | Gt, Gt => sign_changes_from last_sign xs'
      | s, _ => S (sign_changes_from s xs')
      end
  end.

Definition sign_changes (xs : list Q) : nat := sign_changes_from Eq xs.

(** The constant payment of section 4.1. *)
Definition annuity_payment (principal rate : Q) (n : Z) : Q :=
  principal * rate * (1 + rate) ^ n / ((1 + rate) ^ n - 1).

(** Closed forms of the outstanding balance after [k] payments, at a
    zero rate and under the annuity payment. *)
Definition balance_zero_rate (principal : Q) (term : Z) (k : nat) : Q :=
  principal * (inject_Z term - inject_Z (Z.of_nat k)) / inject_Z term.

Definition balance_annuity (principal rate : Q) (term : Z) (k : nat)
  : Q :=
  principal * (((1 + rate) ^ term - (1 + rate) ^ Z.of_nat k)
               / ((1 + rate) ^ term - 1)).

(** The grid of section 4.4: PPA outer, capex middle, debt inner. *)
Definition grid_points (base_debt : Q) : list (Q * Q * Q) :=
  flat_map
    (fun ppa_m =>
       flat_map
         (fun capex_m =>
            map (fun debt => (ppa_m, capex_m, debt))
              (debt_levels base_debt))
         capex_mults)
    ppa_mults.

(** The DSCR of every year with positive debt service, in year
    order. *)
Definition dscr_ratios (rows : list year_row) : list Q :=
  map (fun row =>
         (yr_revenue row - yr_opex row) / yr_debt_service row)
    (filter (fun row => Py.gtb (yr_debt_service row) 0) rows).

(** Coordinates of an emitted row. *)
Definition coords (row : sens_row) : Q * Q * Q :=
  (sr_ppa_mult row, sr_capex_mult row, sr_debt_pct row).

(** Two grid coordinates denote the same point. *)
Definition same_point (a b : Q * Q * Q) : Prop :=
  fst (fst a) == fst (fst b) /\ snd (fst a) == snd (fst b) /\
  snd a == snd b.

(** Evaluation of one grid point to a row. *)
Definition eval_point (proj : project) (fin : financing) (cfg : config)
           (pt : Q * Q * Q) : result sens_row :=
  let '(ppa_m, capex_m, debt) := pt in
  out <- compute_project_finance (temp_proj proj ppa_m capex_m)
           (temp_fin fin debt) cfg ;;
  Ok (mk_sens_row ppa_m capex_m debt (pf_irr out) (pf_npv out)
        (pf_payback_year out) (pf_min_dscr out)).

(** Evaluate every element in order; the first exception aborts. *)
Fixpoint traverse {A B} (f : A -> result B) (xs : list A)
  : result (list B) :=
  match xs with
  | [] => Ok []
  | x :: xs' =>
      y <- f x ;; ys <- traverse f xs' ;; Ok (y :: ys)
  end.

(** The data-model constraints of section 3. *)
Definition valid_project (p : project) : Prop :=
  0 < capacity_mw p /\ 0 < capex p /\ 0 <= opex_annual p /\
  0 < ppa_price p /\ 0 <= degradation_pct p < 1 /\
  0 < cf_year1 p <= 1.

Definition valid_financing (f : financing) (cfg : config) : Prop :=
  0 <= debt_pct f <= 1 /\ 0 <= interest_rate f /\
  (0 < term_years f <= project_life_years cfg)%Z.

Definition valid_config (cfg : config) : Prop :=
  0 <= tax_rate cfg <= 1 /\ (0 < project_life_years cfg)%Z.

End Spec.

Import Spec.

(* ================================================================== *)
(** ** Concrete inputs *)

Module Examples.

(** A two-year all-equity project whose IRR is exactly 8%. *)
Definition two_year_project : project :=
  mk_project 5.0 0.20 0 0.030 1300000 183800.
Definition two_year_financing : financing := mk_financing 0 0.045 2.
Definition two_year_config : config := mk_config 0.08 0 2 0.

(** The first seeded project of [db/create_db.py]. *)
Definition sunny_ridge : project :=
  mk_project 5.0 0.20 0.005 0.030 4500000 25000.
Definition sunny_ridge_financing : financing :=
  mk_financing 0.70 0.045 12.
(** The same project on a two-year loan and a three-year horizon. *)
Definition short_financing : financing := mk_financing 0.70 0.045 2.
Definition short_config : config := mk_config 0.08 0.21 3 0.02.

(** The default configuration with a horizon of zero years, and with
    a discount rate of -100%. *)
Definition zero_life_config : config := mk_config 0.08 0.21 0 0.02.
Definition total_loss_config : config := mk_config (-1) 0.21 25 0.02.

(** Two series with a single sign change: one whose inflow is
    negligible, one with flows of the order of 10^12. *)
Definition negligible_inflow : list Q :=
  [-1; 1 # 10000000000000].
Definition large_flows : list Q :=
  [-1000000000000; 10800000000000000000 # 9999995].

(** A very small installation with a short loan: every cash flow is
    so small that the derivative guard of [irr] fires at once. *)
Definition tiny_project : project :=
  mk_project (5 # 100000000000000000000) 0.20 0.005 0.030
    (45 # 1000000000000000) (25 # 100000000000000000).
Definition tiny_financing (debt : Q) : financing :=
  mk_financing debt 0.045 2.
Definition tiny_config : config := mk_config 0.08 0.21 3 0.02.

End Examples.

Import Examples.

(* ================================================================== *)
(** ** [run_project_model] of [src/model.py] *)

Module Runner.

(** A row of the table [proforma_results], without its generated key.
    The minimum DSCR is stored in the column [max_dscr]. *)
Record result_row : Type := mk_result_row {
  rr_project_id : Z;
  rr_run_date : string;
  rr_npv_real : Q;
  rr_irr_real : Q;
  rr_payback_year : option Q;
  rr_max_dscr : option Q
}.

(** The parameters of the [INSERT]: [float(...)] of each metric, [None]
    kept as [NULL]. *)
Definition insert_row (project_id : Z) (run_date : string)
           (results : proforma) : result_row :=
  mk_result_row project_id run_date (pf_npv results) (pf_irr results)
    (option_map inject_Z (pf_payback_year results))
    (pf_min_dscr results).

(** [run_project_model(project_id)]: [proj] and [fin] are the outcomes
    of the two [SELECT ... .first()], [run_date] the time stamp read
    from the clock, [table] the contents of [proforma_results].  The
    value pairs the outcome of the call with the table it leaves: the
    [INSERT] runs only after the model has returned.  The messages of
    the two [ValueError]s are cut before the project id. *)
Definition run_project_model (project_id : Z) (proj : option project)
           (fin : option financing) (cfg : config) (run_date : string)
           (table : list result_row)
  : result (Z * proforma) * list result_row :=
  match proj with
  | None => (Raise (ValueError "No project found"), table)
  | Some p =>
      match fin with
      | None => (Raise (ValueError "No financing found"), table)
      | Some f =>
          match compute_project_finance p f cfg with
          | Raise e => (Raise e, table)
          | Ok results =>
              (Ok (project_id, results),
               table ++ [insert_row project_id run_date results])
          end
      end
  end.

End Runner.

Import Runner.

(* ================================================================== *)
(** ** [src/database.py] *)

Module Database.

(** The Python values a loaded YAML document is made of.  [VOpaque]
    stands for an object of any other type (a date, bytes, a set, a
    non-finite float): it has no method [get], and only its truth value
    matters here. *)
#[warnings="-register-all"]
Inductive pyval : Type :=
| VNone
| VBool (b : bool)
| VInt (z : Z)
| VFloat (q : Q)
| VStr (s : string)
| VList (items : list pyval)
| VDict (items : list (pyval * pyval))
| VOpaque (truth : bool).

(** Truth value of a Python value, as [if v:] and [v or w] test it. *)
Definition truthy (v : pyval) : bool :=
  match v with
  | VNone => false
  | VBool b => b
  | VInt z => negb (z =? 0)%Z
  | VFloat q => negb (Qeq_bool q 0)
  | VStr u => negb (String.eqb u EmptyString)
  | VList items => match items with [] => false | _ :: _ => true end
  | VDict items => match items with [] => false | _ :: _ => true end
  | VOpaque truth => truth
  end.

(** A call either yields a value or fails with [AttributeError], on a
    receiver that has no method [get]. *)
Inductive outcome (A : Type) : Type :=
| Value (a : A)
| AttributeError.
Arguments Value {A} a.
Arguments AttributeError {A}.

(** The value stored under the string [key] among the items of a
    dictionary, [None] when there is none. *)
Fixpoint lookup (key : string) (items : list (pyval * pyval)) : pyval :=
  match items with
  | [] => VNone
  | (VStr k, v) :: rest =>
      if String.eqb k key then v else lookup key rest
  | _ :: rest => lookup key rest
  end.

(** [v.get(key)]: only a dictionary has the method. *)
Definition get (v : pyval) (key : string) : outcome pyval :=
  match v with
  | VDict items => Value (lookup key items)
  | _ => AttributeError
  end.

(** [get_default_db_url()]: [env_url] is [os.getenv("DB_URL")], [cfg]
    what [load_config()] returned (the empty dictionary without a
    settings file, otherwise the loaded document, [None] for an empty
    one), [db_path] the path [root/db/solriver_mvp.db].  The
    configuration is read only when [DB_URL] is unset or empty. *)
Definition get_default_db_url (env_url : option string) (cfg : pyval)
           (db_path : string) : outcome pyval :=
  let from_config :=
    match get cfg "database" with
    | AttributeError => AttributeError
    | Value database =>
        match get (if truthy database then database else VDict [])
                "url" with
        | AttributeError => AttributeError
        | Value cfg_url =>
            if truthy cfg_url then Value cfg_url
            else Value (VStr (String.append "sqlite:///" db_path))
        end
    end in
  match env_url with
  | Some u => if String.eqb u EmptyString then from_config
              else Value (VStr u)
  | None => from_config
  end.

(** The [url] that [get_engine(db_url)] hands to [create_engine]:
    [db_url or get_default_db_url()]. *)
Definition engine_url (db_url env_url : option string) (cfg : pyval)
           (db_path : string) : outcome pyval :=
  match db_url with
  | Some u => if String.eqb u EmptyString
              then get_default_db_url env_url cfg db_path
              else Value (VStr u)
  | None => get_default_db_url env_url cfg db_path
  end.

End Database.

Import Database.

(* ================================================================== *)
(** ** [loan_schedule] on binary64 numbers *)

Module FloatLoan.

(** The arithmetic of [float] is that of IEEE-754 binary64 with
    rounding to nearest, which the kernel's primitive floats compute.
    [b ** e] is computed here by repeated multiplication; C's [pow],
    which the interpreter calls, agrees with it wherever the products
    are exact (as for the base 1.0) and may otherwise differ in the last
    place. *)

(** [float(n)] for a positive [int], exact below [2^53]. *)
Fixpoint float_of_pos (p : positive) : float :=
  match p with
  | xH => 1%float
  | xO p' => (2 * float_of_pos p')%float
  | xI p' => (2 * float_of_pos p' + 1)%float
  end.

Definition float_of_Z (z : Z) : float :=
  match z with
  | Z0 => 0%float
  | Zpos p => float_of_pos p
  | Zneg p => (- float_of_pos p)%float
  end.

(** [a / b]: a zero divisor of either sign raises. *)
Definition div (a b : float) : result float :=
  if PrimFloat.eqb b 0 then Raise ZeroDivisionError else Ok (a / b)%float.

Fixpoint pow_nat (b : float) (n : nat) : float :=
  match n with
  | O => 1%float
  | S n' => (b * pow_nat b n')%float
  end.

Definition is_infinite (x : float) : bool :=
  PrimFloat.eqb x infinity || PrimFloat.eqb x neg_infinity.

(** [b ** e] for an [int] exponent: a zero base with a negative
    exponent raises, and so does a finite base whose power is out of
    range. *)
Definition pow (b : float) (e : Z) : result float :=
  if (e <? 0)%Z then
    if PrimFloat.eqb b 0 then Raise ZeroDivisionError
    else Ok (1 / pow_nat b (Z.to_nat (- e)))%float
  else
    let p := pow_nat b (Z.to_nat e) in
    if is_infinite p && negb (is_infinite b) then Raise OverflowError
    else Ok p.

(** Two-argument [max]: the first argument wins unless the second is
    greater. *)
Definition max (a b : float) : float :=
  if PrimFloat.ltb a b then b else a.

Record loan_entry : Type := mk_loan_entry {
  le_year : Z;
  le_payment : float;
  le_interest : float;
  le_principal : float;
  le_balance : float
}.

Definition loan_payment (principal rate : float) (term_years : Z)
  : result float :=
  if negb (PrimFloat.eqb rate 0) then
    p1 <- pow (1 + rate)%float term_years ;;
    p2 <- pow (1 + rate)%float term_years ;;
    annuity_factor <- div (rate * p1)%float (p2 - 1)%float ;;
    Ok (principal * annuity_factor)%float
  else
    div principal (float_of_Z term_years).

Fixpoint loan_loop (years : list Z) (rate payment balance : float)
  : list loan_entry :=
  match years with
  | [] => []
  | year :: years' =>
      let interest := (balance * rate)%float in
      let principal_paid := (payment - interest)%float in
      let balance' := max (balance - principal_paid)%float 0%float in
      mk_loan_entry year payment interest principal_paid balance'
      :: loan_loop years' rate payment balance'
  end.

Definition loan_schedule (principal rate : float) (term_years : Z)
  : result (list loan_entry) :=
  payment <- loan_payment principal rate term_years ;;
  Ok (loan_loop (range1 term_years) rate payment principal).

(** The literals [1e-17], [1e-9] and [1e-6], each the nearest binary64
    number. *)
Definition rate_1e_17 : float := 0x1.70ef54646d497p-57%float.
Definition rate_1e_9 : float := 0x1.12e0be826d695p-30%float.
Definition tolerance_1e_6 : float := 0x1.0c6f7a0b5ed8dp-20%float.

End FloatLoan.

(* ================================================================== *)
(** ** Further reference definitions *)

Module Reference.

(** [sum_{i} x_i / q^(t + i)], the discounted value of [xs] with its
    first flow at time [t]. *)
Fixpoint discounted_from (q : Q) (t : nat) (xs : list Q) : Q :=
  match xs with
  | [] => 0
  | x :: xs' => x / q ^ Z.of_nat t + discounted_from q (S t) xs'
  end.

(** Year [y] of the cash-flow build-up of section 4.2, for a debt
    service [ds]. *)
Definition revenue_of (proj : project) (y : Z) : Q :=
  capacity_mw proj * cf_year1 proj * 8760.0
  * (1 - degradation_pct proj) ^ (y - 1) * 1000.0 * ppa_price proj.

Definition opex_of (proj : project) (cfg : config) (y : Z) : Q :=
  opex_annual proj * (1 + opex_escalation cfg) ^ (y - 1).

Definition depreciation_of (proj : project) (cfg : config) : Q :=
  capex proj / inject_Z (project_life_years cfg).

Definition taxable_income_of (proj : project) (cfg : config) (y : Z)
           (ds : Q) : Q :=
  revenue_of proj y - opex_of proj cfg y - depreciation_of proj cfg - ds.

Definition cashflow_of (proj : project) (cfg : config) (y : Z) (ds : Q)
  : Q :=
  revenue_of proj y - opex_of proj cfg y - ds
  - Py.max (taxable_income_of proj cfg y ds * tax_rate cfg) 0.0
  + depreciation_of proj cfg.

End Reference.

Import Reference.

(* ================================================================== *)
(** ** Facts about the Python primitives *)

Lemma ltb_true (a b : Q) : ltb a b = true <-> a < b.
Proof.
  unfold ltb. rewrite negb_true_iff.
  destruct (Qle_bool b a) eqn:E.
  - apply Qle_bool_iff in E. split; [discriminate | intro H; lra].
  - split; [intros _ | reflexivity].
    apply Qnot_le_lt. intro H. apply Qle_bool_iff in H. congruence.
Qed.

Lemma ltb_false (a b : Q) : ltb a b = false <-> b <= a.
Proof.
  destruct (ltb a b) eqn:E.
  - apply ltb_true in E. split; [discriminate | intro; lra].
  - split; [intros _ | reflexivity].
    apply Qnot_lt_le. intro H. apply ltb_true in H. congruence.
Qed.

Lemma gtb_true (a b : Q) : gtb a b = true <-> b < a.
Proof. apply ltb_true. Qed.

Lemma gtb_false (a b : Q) : gtb a b = false <-> a <= b.
Proof. apply ltb_false. Qed.

Lemma leb_true (a b : Q) : leb a b = true <-> a <= b.
Proof. apply Qle_bool_iff. Qed.

Lemma leb_false (a b : Q) : leb a b = false <-> b < a.
Proof.
  unfold leb. destruct (Qle_bool a b) eqn:E.
  - apply Qle_bool_iff in E. split; [discriminate | intro; lra].
  - split; [intros _ | reflexivity].
    apply Qnot_le_lt. intro H. apply Qle_bool_iff in H. congruence.
Qed.

Lemma Qeq_bool_false (a b : Q) : Qeq_bool a b = false <-> ~ a == b.
Proof.
  split.
  - intros E H. apply Qeq_bool_iff in H. congruence.
  - intro H. destruct (Qeq_bool a b) eqn:E; [| reflexivity].
    apply Qeq_bool_iff in E. contradiction.
Qed.

Lemma max_cases (a b : Q) :
  (b <= a /\ Py.max a b = a) \/ (a < b /\ Py.max a b = b).
Proof.
  unfold Py.max. destruct (gtb b a) eqn:E.
  - right. apply gtb_true in E. auto.
  - left. apply gtb_false in E. auto.
Qed.

Lemma min_cases (a b : Q) :
  (a <= b /\ Py.min a b = a) \/ (b < a /\ Py.min a b = b).
Proof.
  unfold Py.min. destruct (ltb b a) eqn:E.
  - right. apply ltb_true in E. auto.
  - left. apply ltb_false in E. auto.
Qed.

Lemma div_ok (a b : Q) : ~ b == 0 -> div a b = Ok (a / b).
Proof.
  intro H. unfold div. apply Qeq_bool_false in H. now rewrite H.
Qed.

Lemma div_raise (a b : Q) : b == 0 -> div a b = Raise ZeroDivisionError.
Proof.
  intro H. unfold div. apply Qeq_bool_iff in H. now rewrite H.
Qed.

Lemma div_inv (a b v : Q) : div a b = Ok v -> ~ b == 0 /\ v = a / b.
Proof.
  unfold div. destruct (Qeq_bool b 0) eqn:E; [discriminate |].
  intro H. injection H as <-. split; [now apply Qeq_bool_false | reflexivity].
Qed.

Lemma div_raise_inv (a b : Q) (e : exn) :
  div a b = Raise e -> e = ZeroDivisionError /\ b == 0.
Proof.
  unfold div. destruct (Qeq_bool b 0) eqn:E; [| discriminate].
  intro H. injection H as <-. split; [reflexivity | now apply Qeq_bool_iff].
Qed.

Lemma bind_ok_inv {A B} (c : result A) (k : A -> result B) (b : B) :
  Py.bind c k = Ok b -> exists a, c = Ok a /\ k a = Ok b.
Proof. destruct c; simpl; [eauto | discriminate]. Qed.

Lemma bind_raise_inv {A B} (c : result A) (k : A -> result B) (e : exn) :
  Py.bind c k = Raise e ->
  c = Raise e \/ exists a, c = Ok a /\ k a = Raise e.
Proof. destruct c; simpl; [eauto | intro H; left; congruence]. Qed.

(** [isclose(d, 0.0, abs_tol=1e-12)] tests [|d| <= 1e-12]: the relative
    bound [1e-9 * |d|] never exceeds [|d|]. *)
Lemma isclose_zero (d : Q) :
  isclose d 0 abs_tol_d_npv = Qle_bool (Qabs d) abs_tol_d_npv.
Proof.
  unfold isclose, abs_tol_d_npv.
  assert (Hd : Qabs (d - 0) == Qabs d) by (apply Qabs_wd; ring).
  assert (H0 : Qabs 0 == 0) by reflexivity.
  pose proof (Qabs_nonneg d) as Hn.
  destruct (max_cases (Qabs d) (Qabs 0)) as [[_ E1] | [Hlt _]];
    [rewrite E1 | lra].
  destruct (max_cases (0.000000001 * Qabs d) 0.000000000001)
    as [[H2 E2] | [H2 E2]]; rewrite E2.
  - destruct (Qle_bool (Qabs d) 0.000000000001) eqn:E.
    + apply Qle_bool_iff in E. lra.
    + apply leb_false. rewrite Hd. apply leb_false in E. lra.
  - unfold leb. destruct (Qle_bool (Qabs d) 0.000000000001) eqn:E.
    + apply Qle_bool_iff. apply Qle_bool_iff in E. lra.
    + apply leb_false. apply leb_false in E. lra.
Qed.

(* ================================================================== *)
(** ** The sweep as an in-order traversal of the grid *)

Section Traverse.

Context {A B : Type} (f : A -> result B).

Lemma for_each_app (xs : list A) (acc : list B) :
  for_each xs (fun x s => y <- f x ;; Ok (s ++ [y])) acc =
  ys <- traverse f xs ;; Ok (acc ++ ys).
Proof.
  revert acc. induction xs as [| x xs IH]; intro acc; simpl.
  - now rewrite app_nil_r.
  - destruct (f x) as [y | e]; simpl; [| reflexivity].
    rewrite IH. destruct (traverse f xs) as [ys | e]; simpl;
      [| reflexivity].
    now rewrite <- app_assoc.
Qed.

Lemma traverse_app (xs ys : list A) :
  traverse f (xs ++ ys) =
  us <- traverse f xs ;; vs <- traverse f ys ;; Ok (us ++ vs).
Proof.
  induction xs as [| x xs IH]; simpl.
  - destruct (traverse f ys); reflexivity.
  - destruct (f x) as [y | e]; simpl; [| reflexivity].
    rewrite IH. destruct (traverse f xs) as [us | e]; simpl;
      [| reflexivity].
    destruct (traverse f ys); reflexivity.
Qed.

Lemma traverse_ok_length (xs : list A) (ys : list B) :
  traverse f xs = Ok ys -> List.length ys = List.length xs.
Proof.
  revert ys. induction xs as [| x xs IH]; simpl; intros ys H.
  - now injection H as <-.
  - destruct (f x) as [y | e]; simpl in H; [| discriminate].
    destruct (traverse f xs) as [zs | e]; simpl in H; [| discriminate].
    injection H as <-. simpl. f_equal. now apply IH.
Qed.

Lemma traverse_ok_Forall2 (xs : list A) (ys : list B) :
  traverse f xs = Ok ys -> Forall2 (fun x y => f x = Ok y) xs ys.
Proof.
  revert ys. induction xs as [| x xs IH]; simpl; intros ys H.
  - injection H as <-. constructor.
  - destruct (f x) as [y | e] eqn:E; simpl in H; [| discriminate].
    destruct (traverse f xs) as [zs | e]; simpl in H; [| discriminate].
    injection H as <-. constructor; [exact E | now apply IH].
Qed.

Lemma traverse_total (xs : list A) :
  (forall x, In x xs -> is_ok (f x) = true) ->
  exists ys, traverse f xs = Ok ys.
Proof.
  induction xs as [| x xs IH]; simpl; intro H.
  - eauto.
  - destruct (f x) as [y | e] eqn:E.
    + destruct IH as [ys Hys]; [intros; apply H; auto |].
      rewrite Hys. simpl. eauto.
    + specialize (H x (or_introl eq_refl)). rewrite E in H. discriminate.
Qed.

(** The first element that raises decides the whole traversal. *)
Lemma traverse_first_raise (xs1 : list A) (x : A) (xs2 : list A)
      (e : exn) :
  (forall a, In a xs1 -> is_ok (f a) = true) ->
  f x = Raise e ->
  traverse f (xs1 ++ x :: xs2) = Raise e.
Proof.
  intros Hok Hx. rewrite traverse_app.
  destruct (traverse_total xs1 Hok) as [us ->]. simpl.
  now rewrite Hx.
Qed.

Lemma traverse_raise_inv (xs : list A) (e : exn) :
  traverse f xs = Raise e ->
  exists xs1 x xs2,
    xs = xs1 ++ x :: xs2 /\
    (forall a, In a xs1 -> is_ok (f a) = true) /\ f x = Raise e.
Proof.
  induction xs as [| x xs IH]; simpl; intro H; [discriminate |].
  destruct (f x) as [y | e'] eqn:E; simpl in H.
  - destruct (traverse f xs) as [ys | e'']; simpl in H; [discriminate |].
    injection H as ->. destruct IH as (xs1 & a & xs2 & -> & Hok & Ha);
      [reflexivity |].
    exists (x :: xs1), a, xs2. repeat split; [| exact Ha].
    intros b [<- | Hb]; [now rewrite E | now apply Hok].
  - injection H as ->. exists [], x, xs. repeat split; [| exact E].
    intros a [].
Qed.

End Traverse.

Lemma for_each_flat_map {A C S} (h : A -> list C)
      (body : C -> S -> result S) (xs : list A) (s : S) :
  for_each xs (fun x => for_each (h x) body) s =
  for_each (flat_map h xs) body s.
Proof.
  revert s. induction xs as [| x xs IH]; intro s; simpl; [reflexivity |].
  assert (Happ : forall l1 l2 s0,
             for_each (l1 ++ l2) body s0 =
             Py.bind (for_each l1 body s0) (for_each l2 body)).
  { induction l1 as [| c l1 IH1]; intros l2 s0; simpl; [reflexivity |].
    destruct (body c s0); simpl; [apply IH1 | reflexivity]. }
  rewrite Happ. destruct (for_each (h x) body s); simpl;
    [apply IH | reflexivity].
Qed.

Lemma for_each_ext {A S} (b1 b2 : A -> S -> result S) (xs : list A)
      (s : S) :
  (forall x s', b1 x s' = b2 x s') ->
  for_each xs b1 s = for_each xs b2 s.
Proof.
  intro H. revert s. induction xs as [| x xs IH]; intro s; simpl;
    [reflexivity |].
  rewrite H. destruct (b2 x s); simpl; [apply IH | reflexivity].
Qed.

(** [sweep] evaluates the grid points in enumeration order, one row per
    point, and stops at the first exception. *)
Lemma sweep_traverse (proj : project) (fin : financing) (cfg : config) :
  sweep proj fin cfg =
  traverse (eval_point proj fin cfg) (grid_points (debt_pct fin)).
Proof.
  unfold sweep, grid_points.
  set (pts := fun ppa_m : Q =>
                flat_map (fun capex_m => map (fun debt => (ppa_m, capex_m, debt))
                                           (debt_levels (debt_pct fin)))
                  capex_mults).
  set (body := fun (pt : Q * Q * Q) (s : list sens_row) =>
                 y <- eval_point proj fin cfg pt ;; Ok (s ++ [y])).
  transitivity (for_each (flat_map pts ppa_mults) body []).
  - rewrite <- for_each_flat_map. apply for_each_ext. intros ppa_m s.
    unfold pts. rewrite <- for_each_flat_map. apply for_each_ext.
    intros capex_m s'.
    generalize (debt_levels (debt_pct fin)). intro ds. revert s'.
    induction ds as [| d ds IH]; intro s'; simpl; [reflexivity |].
    unfold body at 1, point_body at 1, eval_point at 1.
    destruct (compute_project_finance _ _ cfg); simpl;
      [apply IH | reflexivity].
  - unfold body. rewrite for_each_app.
    destruct (traverse _ _); reflexivity.
Qed.

Lemma eval_point_coords (proj : project) (fin : financing) (cfg : config)
      (pt : Q * Q * Q) (row : sens_row) :
  eval_point proj fin cfg pt = Ok row -> coords row = pt.
Proof.
  destruct pt as [[ppa_m capex_m] debt]. unfold eval_point.
  destruct (compute_project_finance _ _ cfg); simpl; [| discriminate].
  intro H. injection H as <-. reflexivity.
Qed.

Lemma sweep_ok_coords (proj : project) (fin : financing) (cfg : config)
      (rows : list sens_row) :
  sweep proj fin cfg = Ok rows ->
  map coords rows = grid_points (debt_pct fin).
Proof.
  rewrite sweep_traverse. intro H. apply traverse_ok_Forall2 in H.
  induction H as [| pt row pts rows Hx _ IH]; simpl; [reflexivity |].
  f_equal; [now apply eval_point_coords in Hx | exact IH].
Qed.

Lemma grid_points_length (base : Q) :
  List.length (grid_points base) = 45%nat.
Proof. reflexivity. Qed.

(* ================================================================== *)
(** ** The debt axis of the grid *)

Lemma debt_levels_bounds (base : Q) :
  0 <= base <= 1 ->
  exists lo hi,
    debt_levels base = [lo; base; hi] /\
    0 <= lo <= 0.90 /\ 0.10 <= hi <= 0.95 /\
    (0.10 <= base -> lo == base - 0.10) /\ (base <= 0.10 -> lo == 0) /\
    (base <= 0.85 -> hi == base + 0.10) /\ (0.85 <= base -> hi == 0.95).
Proof.
  intro Hb. unfold debt_levels.
  exists (Py.max 0.0 (base - 0.10)), (Py.min 0.95 (base + 0.10)).
  split; [reflexivity |].
  destruct (max_cases 0.0 (base - 0.10)) as [[H1 ->] | [H1 ->]];
    destruct (min_cases 0.95 (base + 0.10)) as [[H2 ->] | [H2 ->]];
    repeat split; intros; lra.
Qed.

Lemma in_grid_debt (base : Q) (pt : Q * Q * Q) :
  In pt (grid_points base) -> In (snd pt) (debt_levels base).
Proof.
  unfold grid_points. intro H.
  apply in_flat_map in H as (ppa_m & _ & H).
  apply in_flat_map in H as (capex_m & _ & H).
  apply in_map_iff in H as (d & <- & Hd). exact Hd.
Qed.

Lemma run_sensitivity_some (proj : project) (fin : financing)
      (cfg : config) :
  run_sensitivity (Some proj) (Some fin) cfg = sweep proj fin cfg.
Proof. reflexivity. Qed.

Lemma row_debt_in_levels (proj : project) (fin : financing) (cfg : config)
      (rows : list sens_row) (row : sens_row) :
  sweep proj fin cfg = Ok rows -> In row rows ->
  In (sr_debt_pct row) (debt_levels (debt_pct fin)).
Proof.
  intros Hs Hin. apply sweep_ok_coords in Hs.
  apply (in_map coords) in Hin. rewrite Hs in Hin.
  apply in_grid_debt in Hin. exact Hin.
Qed.

Lemma grid_points_head (base : Q) :
  exists rest,
    grid_points base =
    [(0.90, 0.90, Py.max 0.0 (base - 0.10)); (0.90, 0.90, base);
     (0.90, 0.90, Py.min 0.95 (base + 0.10))] ++ rest.
Proof. eexists. reflexivity. Qed.

Lemma sweep_ok_head (proj : project) (fin : financing) (cfg : config)
      (rows : list sens_row) :
  sweep proj fin cfg = Ok rows ->
  exists r0 r1 r2 rest,
    rows = r0 :: r1 :: r2 :: rest /\
    coords r0 = (0.90, 0.90, Py.max 0.0 (debt_pct fin - 0.10)) /\
    coords r1 = (0.90, 0.90, debt_pct fin) /\
    coords r2 = (0.90, 0.90, Py.min 0.95 (debt_pct fin + 0.10)).
Proof.
  intro Hs. apply sweep_ok_coords in Hs.
  destruct (grid_points_head (debt_pct fin)) as [rest Hg].
  rewrite Hg in Hs. cbn [app] in Hs.
  destruct rows as [| r0 [| r1 [| r2 rows]]]; try discriminate Hs.
  cbn [map] in Hs.
  exists r0, r1, r2, rows. repeat split; congruence.
Qed.

(** Successful sweeps of the small installation at three base debt
    fractions. *)
Lemma tiny_sweep_ok_085 :
  is_ok (run_sensitivity (Some tiny_project) (Some (tiny_financing 0.85))
           tiny_config) = true.
Proof. vm_compute. reflexivity. Qed.

Lemma tiny_sweep_ok_095 :
  is_ok (run_sensitivity (Some tiny_project) (Some (tiny_financing 0.95))
           tiny_config) = true.
Proof. vm_compute. reflexivity. Qed.

Lemma tiny_sweep_ok_1 :
  is_ok (run_sensitivity (Some tiny_project) (Some (tiny_financing 1))
           tiny_config) = true.
Proof. vm_compute. reflexivity. Qed.

Lemma is_ok_inv {A} (c : result A) : is_ok c = true -> exists a, c = Ok a.
Proof. destruct c; [eauto | discriminate]. Qed.

(** C4, as stated, fails: with base debt fraction 1 the sweep of the
    small installation succeeds and emits a row whose debt level is the
    unclamped base, above 0.95. *)
Lemma debt_level_above_cap_emitted :
  0 <= 1 <= 1 /\
  exists rows,
    run_sensitivity (Some tiny_project) (Some (tiny_financing 1))
      tiny_config = Ok rows /\
    exists row, In row rows /\ ~ (0 <= sr_debt_pct row <= 0.95).
Proof.
  split; [lra |].
  destruct (is_ok_inv _ tiny_sweep_ok_1) as [rows Hrows].
  exists rows. split; [exact Hrows |].
  rewrite run_sensitivity_some in Hrows.
  destruct (sweep_ok_head _ _ _ _ Hrows) as (r0 & r1 & r2 & rest & -> & _ & H1 & _).
  exists r1. split; [simpl; auto |].
  unfold coords in H1. injection H1 as _ _ H1. rewrite H1. simpl. lra.
Qed.

(** C4 (amended): for a base debt fraction in [0,1], every emitted debt
    level lies in [0,1]; it lies in [0,0.95] whenever the base does, and
    a level above 0.95 can only be the base itself, which the sweep
    passes on unclamped. *)
Theorem sweep_debt_levels_range (proj : project) (fin : financing)
        (cfg : config) (rows : list sens_row) :
  0 <= debt_pct fin <= 1 ->
  run_sensitivity (Some proj) (Some fin) cfg = Ok rows ->
  Forall (fun row =>
            0 <= sr_debt_pct row <= 1 /\
            (debt_pct fin <= 0.95 -> sr_debt_pct row <= 0.95) /\
            (0.95 < sr_debt_pct row -> sr_debt_pct row = debt_pct fin))
         rows.
Proof.
  intros Hb Hs. rewrite run_sensitivity_some in Hs.
  apply Forall_forall. intros row Hin.
  pose proof (row_debt_in_levels _ _ _ _ _ Hs Hin) as Hd.
  destruct (debt_levels_bounds _ Hb) as (lo & hi & E & Hlo & Hhi & _).
  rewrite E in Hd.
  destruct Hd as [<- | [<- | [<- | []]]]; repeat split; intros; try lra.
Qed.

Lemma sweep_debt_levels_range_witness :
  0 <= debt_pct (tiny_financing 0.85) <= 1 /\
  exists rows,
    run_sensitivity (Some tiny_project) (Some (tiny_financing 0.85))
      tiny_config = Ok rows /\
    Forall (fun row =>
              0 <= sr_debt_pct row <= 1 /\
              (debt_pct (tiny_financing 0.85) <= 0.95 ->
               sr_debt_pct row <= 0.95) /\
              (0.95 < sr_debt_pct row ->
               sr_debt_pct row = debt_pct (tiny_financing 0.85)))
           rows.
Proof.
  assert (Hb : 0 <= debt_pct (tiny_financing 0.85) <= 1) by (simpl; lra).
  split; [exact Hb |].
  destruct (is_ok_inv _ tiny_sweep_ok_085) as [rows Hrows].
  exists rows. split; [exact Hrows |].
  exact (sweep_debt_levels_range tiny_project (tiny_financing 0.85)
           tiny_config rows Hb Hrows).
Defined.

(** C10: at base 0.95 the raised level is clamped onto the base, at
    base 0 the lowered level is; the 45 emitted rows then contain two
    rows with the same coordinates. *)
Theorem sweep_grid_points_coincide (proj : project) (fin : financing)
        (cfg : config) (rows : list sens_row) :
  debt_pct fin == 0.95 \/ debt_pct fin == 0 ->
  run_sensitivity (Some proj) (Some fin) cfg = Ok rows ->
  List.length rows = 45%nat /\
  exists i j r1 r2,
    (i < j < 3)%nat /\
    nth i (debt_levels (debt_pct fin)) 0 ==
    nth j (debt_levels (debt_pct fin)) 0 /\
    nth_error rows i = Some r1 /\ nth_error rows j = Some r2 /\
    same_point (coords r1) (coords r2).
Proof.
  intros Hb Hs. rewrite run_sensitivity_some in Hs.
  pose proof (sweep_ok_coords _ _ _ _ Hs) as Hc.
  split.
  { rewrite <- (length_map coords), Hc. apply grid_points_length. }
  destruct (sweep_ok_head _ _ _ _ Hs) as (r0 & r1 & r2 & rest & -> & H0 & H1 & H2).
  unfold debt_levels.
  destruct Hb as [Hb | Hb].
  - exists 1%nat, 2%nat, r1, r2. simpl.
    assert (E : debt_pct fin == Py.min 0.95 (debt_pct fin + 0.10)).
    { destruct (min_cases 0.95 (debt_pct fin + 0.10)) as [[_ ->] | [H _]];
        lra. }
    repeat split; try lia; try exact E;
      rewrite H1, H2; simpl; try reflexivity. exact E.
  - exists 0%nat, 1%nat, r0, r1. simpl.
    assert (E : Py.max 0.0 (debt_pct fin - 0.10) == debt_pct fin).
    { destruct (max_cases 0.0 (debt_pct fin - 0.10)) as [[_ ->] | [H _]];
        lra. }
    repeat split; try lia; try exact E;
      rewrite H0, H1; simpl; try reflexivity. exact E.
Qed.

Lemma sweep_grid_points_coincide_witness :
  exists rows,
    run_sensitivity (Some tiny_project) (Some (tiny_financing 0.95))
      tiny_config = Ok rows /\
    List.length rows = 45%nat /\
    exists i j r1 r2,
      (i < j < 3)%nat /\
      nth i (debt_levels 0.95) 0 == nth j (debt_levels 0.95) 0 /\
      nth_error rows i = Some r1 /\ nth_error rows j = Some r2 /\
      same_point (coords r1) (coords r2).
Proof.
  destruct (is_ok_inv _ tiny_sweep_ok_095) as [rows Hrows].
  exists rows. split; [exact Hrows |].
  apply (sweep_grid_points_coincide tiny_project (tiny_financing 0.95)
           tiny_config rows); [left; reflexivity | exact Hrows].
Defined.

(* ================================================================== *)
(** ** The discounted sums of [npv] and [irr] *)

Lemma Qpower_nat_nonzero (b : Q) (t : nat) :
  ~ b == 0 -> ~ b ^ Z.of_nat t == 0.
Proof.
  intros Hb H. apply Hb. destruct t as [| t].
  - simpl in H. discriminate H.
  - eapply Qpower_not_0 in Hb. exfalso. apply Hb. exact H.
Qed.

Lemma Qpower_zero_base (b : Q) (t : nat) :
  b == 0 -> (0 < t)%nat -> b ^ Z.of_nat t == 0.
Proof.
  intros Hb Ht. rewrite Hb. apply Qpower_0. lia.
Qed.

Section Sums.

(** Terms of the form [num t x / den t]. *)
Variables (num : nat -> Q -> Q) (den : nat -> Q).

Let f (t : nat) (x : Q) : result Q := div (num t x) (den t).
Let g (t : nat) (x : Q) : Q := num t x / den t.

Lemma sum_from_fold (t : nat) (xs : list Q) (acc : Q) :
  (forall k, (t <= k)%nat -> ~ den k == 0) ->
  sum_from f t xs acc =
  Ok (fold_left (fun a tx => a + g (fst tx) (snd tx))
        (combine (seq t (List.length xs)) xs) acc).
Proof.
  revert t acc. induction xs as [| x xs IH]; intros t acc Hden; simpl;
    [reflexivity |].
  unfold f at 1. rewrite div_ok by (apply Hden; lia). simpl.
  apply IH. intros k Hk. apply Hden. lia.
Qed.

Lemma sum_from_raise_only (t : nat) (xs : list Q) (acc : Q) (e : exn) :
  sum_from f t xs acc = Raise e -> e = ZeroDivisionError.
Proof.
  revert t acc. induction xs as [| x xs IH]; intros t acc H; simpl in H;
    [discriminate |].
  apply bind_raise_inv in H as [H | (v & _ & H)].
  - now apply div_raise_inv in H.
  - eapply IH, H.
Qed.

Lemma sum_from_raise_at (t : nat) (xs : list Q) (acc : Q) (k : nat) :
  (k < List.length xs)%nat -> den (t + k) == 0 ->
  sum_from f t xs acc = Raise ZeroDivisionError.
Proof.
  revert t acc k. induction xs as [| x xs IH]; intros t acc k Hk Hd;
    simpl in *; [lia |].
  unfold f at 1. unfold div at 1.
  destruct (Qeq_bool (den t) 0) eqn:E; simpl; [reflexivity |].
  destruct k as [| k].
  - rewrite Nat.add_0_r in Hd. apply Qeq_bool_iff in Hd. congruence.
  - apply (IH (S t) _ k); [lia |].
    now replace (S t + k)%nat with (t + S k)%nat by lia.
Qed.

End Sums.

Lemma npv_defined (r : Q) (cfs : list Q) :
  ~ 1 + r == 0 -> npv r cfs = Ok (npv_sum r cfs).
Proof.
  intro Hr. unfold npv, npv_sum, sum_enumerate, sigma.
  apply (sum_from_fold (fun _ cf => cf) (fun t => (1 + r) ^ Z.of_nat t)).
  intros k _. now apply Qpower_nat_nonzero.
Qed.

Lemma d_npv_defined (r : Q) (cfs : list Q) :
  ~ 1 + r == 0 -> d_npv r cfs = Ok (dnpv_sum r cfs).
Proof.
  intro Hr. unfold d_npv, dnpv_sum, sum_enumerate, sigma.
  apply (sum_from_fold (fun t cf => - inject_Z (Z.of_nat t) * cf)
           (fun t => (1 + r) ^ Z.of_nat (t + 1))).
  intros k _. now apply Qpower_nat_nonzero.
Qed.

Lemma npv_raise_only (r : Q) (cfs : list Q) (e : exn) :
  npv r cfs = Raise e -> e = ZeroDivisionError.
Proof.
  apply (sum_from_raise_only (fun _ cf => cf)
           (fun t => (1 + r) ^ Z.of_nat t)).
Qed.

Lemma d_npv_raise_only (r : Q) (cfs : list Q) (e : exn) :
  d_npv r cfs = Raise e -> e = ZeroDivisionError.
Proof.
  apply (sum_from_raise_only (fun t cf => - inject_Z (Z.of_nat t) * cf)
           (fun t => (1 + r) ^ Z.of_nat (t + 1))).
Qed.

(** At a rate of -100% every term after year 0 divides by zero. *)
Lemma npv_undefined (r : Q) (cfs : list Q) :
  1 + r == 0 -> (2 <= List.length cfs)%nat ->
  npv r cfs = Raise ZeroDivisionError.
Proof.
  intros Hr Hlen. unfold npv, sum_enumerate.
  apply (sum_from_raise_at (fun _ cf => cf)
           (fun t => (1 + r) ^ Z.of_nat t) 0 cfs 0 1); [lia |].
  apply Qpower_zero_base; [exact Hr | lia].
Qed.

Lemma d_npv_undefined (r : Q) (cfs : list Q) :
  1 + r == 0 -> (1 <= List.length cfs)%nat ->
  d_npv r cfs = Raise ZeroDivisionError.
Proof.
  intros Hr Hlen. unfold d_npv, sum_enumerate.
  apply (sum_from_raise_at (fun t cf => - inject_Z (Z.of_nat t) * cf)
           (fun t => (1 + r) ^ Z.of_nat (t + 1)) 0 cfs 0 0); [lia |].
  apply Qpower_zero_base; [exact Hr | simpl; lia].
Qed.

(* ================================================================== *)
(** ** The Newton-Raphson loop of [irr] *)

Lemma ltb_as_le (a b : Q) : ltb a b = negb (Qle_bool b a).
Proof. reflexivity. Qed.

(** The loop body wherever the sums are defined. *)
Lemma irr_body_defined (cfs : list Q) (tol r : Q) :
  ~ 1 + r == 0 ->
  irr_body cfs tol r =
  if Qle_bool (Qabs (dnpv_sum r cfs)) abs_tol_d_npv then Ok (Break r)
  else if Qle_bool tol (Qabs (newton_next cfs r - r))
       then Ok (Next (newton_next cfs r))
       else Ok (Return (newton_next cfs r)).
Proof.
  intro Hr. unfold irr_body.
  rewrite (npv_defined r cfs Hr), (d_npv_defined r cfs Hr).
  cbn [Py.bind]. rewrite isclose_zero.
  destruct (Qle_bool (Qabs (dnpv_sum r cfs)) abs_tol_d_npv) eqn:E;
    [reflexivity |].
  assert (Hd : ~ dnpv_sum r cfs == 0).
  { intro H0. apply leb_false in E. rewrite H0 in E.
    unfold abs_tol_d_npv in E. simpl in E. lra. }
  rewrite (div_ok _ _ Hd). cbn [Py.bind]. fold (newton_next cfs r).
  rewrite ltb_as_le.
  destruct (Qle_bool tol (Qabs (newton_next cfs r - r))); reflexivity.
Qed.

Lemma irr_body_raise_only (cfs : list Q) (tol r : Q) (e : exn) :
  irr_body cfs tol r = Raise e -> e = ZeroDivisionError.
Proof.
  unfold irr_body. intro H.
  apply bind_raise_inv in H as [H | (nv & _ & H)];
    [now apply npv_raise_only in H |].
  apply bind_raise_inv in H as [H | (dv & _ & H)];
    [now apply d_npv_raise_only in H |].
  destruct (isclose dv 0 abs_tol_d_npv); [discriminate |].
  apply bind_raise_inv in H as [H | (q & _ & H)];
    [now apply div_raise_inv in H |].
  destruct (ltb _ tol); discriminate.
Qed.

Lemma irr_loop_raise_only (cfs : list Q) (tol : Q) (n : nat) (r : Q)
      (e : exn) :
  irr_loop cfs tol n r = Raise e -> e = ZeroDivisionError.
Proof.
  revert r. induction n as [| n IH]; intros r H; simpl in H;
    [discriminate |].
  apply bind_raise_inv in H as [H | (c & _ & H)];
    [now apply irr_body_raise_only in H |].
  destruct c; [eapply IH, H | discriminate | discriminate].
Qed.

Lemma newton_S (cfs : list Q) (tol : Q) (n : nat) (r : Q) :
  newton cfs tol (S n) r =
  if Qle_bool (Qabs (dnpv_sum r cfs)) abs_tol_d_npv then r
  else if Qle_bool tol (Qabs (newton_next cfs r - r))
       then newton cfs tol n (newton_next cfs r)
       else newton_next cfs r.
Proof. reflexivity. Qed.

Lemma visited_S (cfs : list Q) (tol : Q) (n : nat) (r : Q) :
  visited cfs tol (S n) r =
  r :: (if Qle_bool (Qabs (dnpv_sum r cfs)) abs_tol_d_npv then []
        else if Qle_bool tol (Qabs (newton_next cfs r - r))
             then visited cfs tol n (newton_next cfs r)
             else []).
Proof. reflexivity. Qed.

(** The loop computes the reference iteration as long as no visited
    estimate is -100%. *)
Lemma irr_loop_newton (cfs : list Q) (tol : Q) (n : nat) (r : Q) :
  Forall (fun x => ~ 1 + x == 0) (visited cfs tol n r) ->
  irr_loop cfs tol n r = Ok (newton cfs tol n r).
Proof.
  revert r. induction n as [| n IH]; intros r Hv; [reflexivity |].
  rewrite visited_S in Hv. rewrite newton_S. cbn [irr_loop].
  apply Forall_cons_iff in Hv as [Hr Hrest].
  rewrite (irr_body_defined cfs tol r Hr). revert Hrest.
  destruct (Qle_bool (Qabs (dnpv_sum r cfs)) abs_tol_d_npv);
    [reflexivity |].
  destruct (Qle_bool tol (Qabs (newton_next cfs r - r)));
    cbn [Py.bind]; [apply IH | reflexivity].
Qed.

Lemma irr_body_ok_defined (cfs : list Q) (tol r : Q) (c : ctl Q Q) :
  irr_body cfs tol r = Ok c -> cfs = [] \/ ~ 1 + r == 0.
Proof.
  intro Hc. destruct cfs as [| cf cfs]; [now left | right].
  intro Hr. unfold irr_body in Hc.
  apply bind_ok_inv in Hc as (nv & _ & Hc).
  apply bind_ok_inv in Hc as (dv & Hd & _).
  rewrite d_npv_undefined in Hd by (simpl; auto with arith).
  discriminate.
Qed.

Lemma irr_loop_nil (tol : Q) (n : nat) (r : Q) :
  irr_loop [] tol n r = Ok r /\ newton [] tol n r = r.
Proof.
  destruct n as [| n]; split; reflexivity.
Qed.

Lemma irr_loop_ok_newton (cfs : list Q) (tol : Q) (n : nat) (r v : Q) :
  irr_loop cfs tol n r = Ok v -> v = newton cfs tol n r.
Proof.
  revert r. induction n as [| n IH]; intros r H.
  - simpl in H. now injection H as <-.
  - pose proof H as H'. cbn [irr_loop] in H.
    apply bind_ok_inv in H as (c & Hc & H).
    destruct (irr_body_ok_defined _ _ _ _ Hc) as [-> | Hr].
    { destruct (irr_loop_nil tol (S n) r) as [E1 E2].
      rewrite E1 in H'. rewrite E2. now injection H' as <-. }
    rewrite (irr_body_defined cfs tol r Hr) in Hc. rewrite newton_S.
    destruct (Qle_bool (Qabs (dnpv_sum r cfs)) abs_tol_d_npv).
    + injection Hc as <-. now injection H as <-.
    + destruct (Qle_bool tol (Qabs (newton_next cfs r - r)));
        injection Hc as <-; [now apply IH | now injection H as <-].
Qed.

(* ================================================================== *)
(** ** The amortization schedule *)

Lemma loan_loop_length (ys : list Z) (rate payment b : Q) :
  List.length (loan_loop ys rate payment b) = List.length ys.
Proof.
  revert b. induction ys as [| y ys IH]; intro b; simpl;
    [reflexivity | now rewrite IH].
Qed.

Lemma loan_loop_cons (y : Z) (ys : list Z) (rate payment b : Q) :
  loan_loop (y :: ys) rate payment b =
  mk_loan_entry y payment (b * rate) (payment - b * rate)
    (Py.max (b - (payment - b * rate)) 0)
  :: loan_loop ys rate payment (Py.max (b - (payment - b * rate)) 0).
Proof. reflexivity. Qed.

Section LoanLoop.

(** [B k] is the balance after [k] payments of an amortization that
    never overshoots within [n] years. *)
Variables (rate payment : Q) (B : nat -> Q) (n : nat).
Hypothesis B_step : forall k, B (S k) == B k * (1 + rate) - payment.
Hypothesis B_nonneg : forall k, (k <= n)%nat -> 0 <= B k.

Lemma loan_loop_closed_form (ys : list Z) (b : Q) (k : nat) :
  (k + List.length ys <= n)%nat -> b == B k ->
  forall i e,
    nth_error (loan_loop ys rate payment b) i = Some e ->
    le_balance e == B (k + S i) /\ le_payment e = payment.
Proof.
  revert b k. induction ys as [| y ys IH]; intros b k Hlen Hb i e Hi.
  - destruct i; discriminate Hi.
  - rewrite loan_loop_cons in Hi. simpl in Hlen.
    set (x := b - (payment - b * rate)) in *.
    assert (Hx : x == B (S k)).
    { unfold x. rewrite B_step, Hb. ring. }
    assert (Hm : Py.max x 0 == B (S k)).
    { pose proof (B_nonneg (S k) ltac:(lia)) as Hn.
      destruct (max_cases x 0) as [[_ ->] | [Hlt _]];
        [exact Hx | rewrite Hx in Hlt; lra]. }
    destruct i as [| i].
    + cbn [nth_error] in Hi. injection Hi as <-. cbn [le_balance le_payment].
      rewrite Nat.add_1_r. split; [exact Hm | reflexivity].
    + cbn [nth_error] in Hi.
      destruct (IH (Py.max x 0) (S k) ltac:(lia) Hm i e Hi) as [H1 H2].
      split; [| exact H2].
      now replace (k + S (S i))%nat with (S k + S i)%nat by lia.
Qed.

End LoanLoop.

Lemma loan_loop_payment (ys : list Z) (rate payment b : Q)
      (e : loan_entry) :
  In e (loan_loop ys rate payment b) -> le_payment e = payment.
Proof.
  revert b. induction ys as [| y ys IH]; intros b H; [destruct H |].
  rewrite loan_loop_cons in H. destruct H as [<- | H];
    [reflexivity | eapply IH, H].
Qed.

Lemma range1_length (n : Z) : List.length (range1 n) = Z.to_nat n.
Proof. unfold range1. now rewrite length_map, length_seq. Qed.

Lemma inject_Z_pos_nonzero (n : Z) : (0 < n)%Z -> ~ inject_Z n == 0.
Proof.
  intros Hn H. unfold Qeq in H. simpl in H. lia.
Qed.

Lemma neqb_true (a b : Q) : neqb a b = true <-> ~ a == b.
Proof.
  unfold neqb. rewrite negb_true_iff. apply Qeq_bool_false.
Qed.

Lemma neqb_false (a b : Q) : neqb a b = false <-> a == b.
Proof.
  unfold neqb. rewrite negb_false_iff. apply Qeq_bool_iff.
Qed.

Lemma pow_defined (b : Q) (e : Z) : ~ b == 0 -> pow b e = Ok (b ^ e).
Proof.
  intro Hb. unfold pow. apply Qeq_bool_false in Hb. now rewrite Hb.
Qed.

Lemma pow_nonneg_exp (b : Q) (e : Z) : (0 <= e)%Z -> pow b e = Ok (b ^ e).
Proof.
  intro He. unfold pow. replace (e <? 0)%Z with false
    by (symmetry; apply Z.ltb_ge; exact He).
  now rewrite andb_false_r.
Qed.

(** The payment of a valid loan. *)
Lemma loan_payment_valid (principal rate : Q) (term : Z) :
  0 <= rate -> (0 < term)%Z ->
  exists payment,
    loan_payment principal rate term = Ok payment /\
    (rate == 0 -> payment = principal / inject_Z term) /\
    (~ rate == 0 ->
     payment = principal *
               (rate * (1 + rate) ^ term / ((1 + rate) ^ term - 1))).
Proof.
  intros Hr Ht. unfold loan_payment.
  destruct (neqb rate 0) eqn:E.
  - apply neqb_true in E.
    assert (Hq : 1 < 1 + rate) by lra.
    pose proof (Qpower_1_lt _ _ Hq Ht) as Hp.
    rewrite pow_defined by lra. cbn [Py.bind].
    rewrite div_ok by lra. cbn [Py.bind].
    eexists. split; [reflexivity |]. split; [intro; contradiction | reflexivity].
  - apply neqb_false in E.
    rewrite div_ok by (now apply inject_Z_pos_nonzero).
    eexists. split; [reflexivity |]. split; [reflexivity | intro; contradiction].
Qed.

Lemma balance_zero_rate_step (principal rate : Q) (term : Z) (k : nat) :
  rate == 0 -> (0 < term)%Z ->
  balance_zero_rate principal term (S k) ==
  balance_zero_rate principal term k * (1 + rate)
  - principal / inject_Z term.
Proof.
  intros Hr Ht. unfold balance_zero_rate.
  rewrite Nat2Z.inj_succ. unfold Z.succ. rewrite inject_Z_plus, Hr.
  pose proof (inject_Z_pos_nonzero term Ht).
  change (inject_Z 1) with 1. field. assumption.
Qed.

Lemma balance_zero_rate_nonneg (principal : Q) (term : Z) (k : nat) :
  0 <= principal -> (0 < term)%Z -> (k <= Z.to_nat term)%nat ->
  0 <= balance_zero_rate principal term k.
Proof.
  intros Hp Ht Hk. unfold balance_zero_rate.
  assert (H1 : 0 < inject_Z term).
  { change 0 with (inject_Z 0). rewrite <- Zlt_Qlt. exact Ht. }
  assert (H2 : inject_Z (Z.of_nat k) <= inject_Z term).
  { rewrite <- Zle_Qle. lia. }
  apply Qle_shift_div_l; [exact H1 |].
  rewrite Qmult_0_l. apply Qmult_le_0_compat; lra.
Qed.

Lemma balance_annuity_step (principal rate : Q) (term : Z) (k : nat) :
  0 < rate -> (0 < term)%Z ->
  balance_annuity principal rate term (S k) ==
  balance_annuity principal rate term k * (1 + rate)
  - principal * (rate * (1 + rate) ^ term / ((1 + rate) ^ term - 1)).
Proof.
  intros Hr Ht. unfold balance_annuity.
  assert (Hq : 1 < 1 + rate) by lra.
  pose proof (Qpower_1_lt _ _ Hq Ht) as Hp.
  rewrite Nat2Z.inj_succ. unfold Z.succ.
  rewrite (Qpower_plus (1 + rate) (Z.of_nat k) 1) by lra.
  rewrite Qpower_1_r.
  set (qn := (1 + rate) ^ term) in *.
  set (qk := (1 + rate) ^ Z.of_nat k).
  field. lra.
Qed.

Lemma balance_annuity_nonneg (principal rate : Q) (term : Z) (k : nat) :
  0 <= principal -> 0 < rate -> (0 < term)%Z -> (k <= Z.to_nat term)%nat ->
  0 <= balance_annuity principal rate term k.
Proof.
  intros Hp Hr Ht Hk. unfold balance_annuity.
  assert (Hq : 1 < 1 + rate) by lra.
  pose proof (Qpower_1_lt _ _ Hq Ht) as Hn.
  assert (Hle : (1 + rate) ^ Z.of_nat k <= (1 + rate) ^ term).
  { apply Qpower_le_compat_l; [lia | lra]. }
  apply Qmult_le_0_compat; [exact Hp |].
  apply Qle_shift_div_l; lra.
Qed.

(** C7, as stated, fails in floating point: on binary64 numbers the
    valid loan of 1000 over 5 years raises [ZeroDivisionError] at the
    rate [1e-17], where [1 + rate] rounds to 1 and the annuity
    denominator is 0, and at the rate [1e-9] its final ending balance
    exceeds [1e-6]. *)
Lemma loan_schedule_float_tolerance_fails :
  PrimFloat.leb 0 1000 = true /\
  PrimFloat.leb 0 FloatLoan.rate_1e_17 = true /\
  PrimFloat.leb 0 FloatLoan.rate_1e_9 = true /\
  (0 < 5)%Z /\
  FloatLoan.loan_schedule 1000 FloatLoan.rate_1e_17 5
  = Raise ZeroDivisionError /\
  exists sched,
    FloatLoan.loan_schedule 1000 FloatLoan.rate_1e_9 5 = Ok sched /\
    List.length sched = 5%nat /\
    PrimFloat.ltb FloatLoan.tolerance_1e_6
      (last (map FloatLoan.le_balance sched) 0%float) = true.
Proof.
  split; [vm_compute; reflexivity |].
  split; [vm_compute; reflexivity |].
  split; [vm_compute; reflexivity |].
  split; [lia |].
  split; [vm_compute; reflexivity |].
  eexists. split; [vm_compute; reflexivity |].
  split; vm_compute; reflexivity.
Qed.

(** C7 (amended): in exact arithmetic, for a loan with non-negative
    principal and rate and a positive term, the schedule has one entry
    per year, its final entry's ending balance is 0, and every payment is
    [principal / term_years] at a zero rate and the annuity
    [principal * rate * (1+rate)^n / ((1+rate)^n - 1)] otherwise. *)
Theorem loan_schedule_final_balance (principal rate : Q) (term : Z) :
  0 <= principal -> 0 <= rate -> (0 < term)%Z ->
  exists sched final,
    loan_schedule principal rate term = Ok sched /\
    List.length sched = Z.to_nat term /\
    nth_error sched (List.length sched - 1) = Some final /\
    le_balance final == 0 /\
    Forall (fun e =>
              (rate == 0 -> le_payment e == principal / inject_Z term) /\
              (~ rate == 0 ->
               le_payment e == annuity_payment principal rate term))
           sched.
Proof.
  intros Hp Hr Ht.
  destruct (loan_payment_valid principal rate term Hr Ht)
    as (payment & Hpay & Hzero & Hann).
  unfold loan_schedule. rewrite Hpay. cbn [Py.bind].
  set (sched := loan_loop (range1 term) rate payment principal).
  assert (Hlen : List.length sched = Z.to_nat term).
  { unfold sched. now rewrite loan_loop_length, range1_length. }
  assert (Hpos : (0 < Z.to_nat term)%nat) by lia.
  destruct (nth_error sched (List.length sched - 1)) as [final |] eqn:Hfin.
  2:{ apply nth_error_None in Hfin. lia. }
  assert (Hq : 0 < rate -> 1 < (1 + rate) ^ term).
  { intro Hr'. apply Qpower_1_lt; [lra | exact Ht]. }
  exists sched, final. repeat split; try assumption.
  - (* the final balance *)
    destruct (Qeq_dec rate 0) as [Hz | Hnz].
    + destruct (loan_loop_closed_form rate payment
                  (balance_zero_rate principal term) (Z.to_nat term))
        with (ys := range1 term) (b := principal) (k := 0%nat)
             (i := (List.length sched - 1)%nat) (e := final) as [Hb _].
      * intro k. rewrite (Hzero Hz). now apply balance_zero_rate_step.
      * intros k Hk. now apply balance_zero_rate_nonneg.
      * rewrite range1_length. lia.
      * unfold balance_zero_rate. change (inject_Z (Z.of_nat 0)) with 0.
        pose proof (inject_Z_pos_nonzero term Ht). field. assumption.
      * exact Hfin.
      * rewrite Hb, Hlen.
        replace (0 + S (Z.to_nat term - 1))%nat with (Z.to_nat term) by lia.
        unfold balance_zero_rate. rewrite Z2Nat.id by lia.
        pose proof (inject_Z_pos_nonzero term Ht). field. assumption.
    + assert (Hr' : 0 < rate) by lra. specialize (Hq Hr').
      destruct (loan_loop_closed_form rate payment
                  (balance_annuity principal rate term) (Z.to_nat term))
        with (ys := range1 term) (b := principal) (k := 0%nat)
             (i := (List.length sched - 1)%nat) (e := final) as [Hb _].
      * intro k. rewrite (Hann Hnz). now apply balance_annuity_step.
      * intros k Hk. now apply balance_annuity_nonneg.
      * rewrite range1_length. lia.
      * unfold balance_annuity. change (Z.of_nat 0) with 0%Z.
        rewrite Qpower_0_r. field. lra.
      * exact Hfin.
      * rewrite Hb, Hlen.
        replace (0 + S (Z.to_nat term - 1))%nat with (Z.to_nat term) by lia.
        unfold balance_annuity. rewrite Z2Nat.id by lia. field. lra.
  - (* the payments *)
    apply Forall_forall. intros e He.
    apply loan_loop_payment in He. rewrite He. split.
    + intro Hz. now rewrite (Hzero Hz).
    + intro Hnz. rewrite (Hann Hnz). unfold annuity_payment.
      assert (Hr' : 0 < rate) by lra. specialize (Hq Hr'). field. lra.
Qed.

Lemma loan_schedule_final_balance_witness :
  exists sched final,
    loan_schedule 3150000 0.045 12 = Ok sched /\
    List.length sched = 12%nat /\
    nth_error sched (List.length sched - 1) = Some final /\
    le_balance final == 0 /\
    Forall (fun e =>
              (0.045 == 0 -> le_payment e == 3150000 / inject_Z 12) /\
              (~ 0.045 == 0 ->
               le_payment e == annuity_payment 3150000 0.045 12))
           sched.
Proof.
  apply (loan_schedule_final_balance 3150000 0.045 12); [lra | lra | lia].
Defined.

(* ================================================================== *)
(** ** The yearly loop *)

Lemma in_range1 (n y : Z) : In y (range1 n) -> (1 <= y <= n)%Z.
Proof.
  unfold range1. intro H. apply in_map_iff in H as (k & <- & Hk).
  apply in_seq in Hk. lia.
Qed.

Lemma debt_service_of_defined (loan : list loan_entry) (year : Z) :
  (1 <= year)%Z ->
  exists ds,
    debt_service_of loan year = Ok ds /\
    (ds = 0 \/ exists e, In e loan /\ ds = le_payment e).
Proof.
  intro Hy. unfold debt_service_of.
  destruct (year <=? Z.of_nat (List.length loan))%Z eqn:E.
  - apply Z.leb_le in E.
    destruct (nth_error loan (Z.to_nat (year - 1))) as [e |] eqn:Hn.
    + exists (le_payment e). split; [reflexivity | right].
      exists e. split; [eapply nth_error_In, Hn | reflexivity].
    + apply nth_error_None in Hn. lia.
  - exists 0. auto.
Qed.

Lemma year_loop_traverse (proj : project) (tax : Q) (years : Z) (esc e1 : Q)
      (loan : list loan_entry) :
  year_loop proj tax years esc e1 loan =
  traverse (year_body proj tax years esc e1 loan) (range1 years).
Proof.
  unfold year_loop. rewrite for_each_app.
  destruct (traverse _ _); reflexivity.
Qed.

Lemma year_body_defined (proj : project) (tax : Q) (years : Z) (esc e1 : Q)
      (loan : list loan_entry) (year : Z) :
  (1 <= year <= years)%Z ->
  exists row,
    year_body proj tax years esc e1 loan year = Ok row /\
    yr_revenue row =
      e1 * (1 - degradation_pct proj) ^ (year - 1) * 1000.0
      * ppa_price proj /\
    yr_opex row = opex_annual proj * (1 + esc) ^ (year - 1) /\
    (yr_debt_service row = 0 \/
     exists e, In e loan /\ yr_debt_service row = le_payment e).
Proof.
  intro Hy. unfold year_body.
  destruct (debt_service_of_defined loan year) as (ds & -> & Hds); [lia |].
  cbn [Py.bind]. rewrite div_ok by (apply inject_Z_pos_nonzero; lia).
  cbn [Py.bind]. eexists. split; [reflexivity |].
  cbn [yr_revenue yr_opex yr_debt_service]. auto.
Qed.

Lemma year_body_no_value_error (proj : project) (tax : Q) (years : Z)
      (esc e1 : Q) (loan : list loan_entry) (year : Z) (e : exn) :
  year_body proj tax years esc e1 loan year = Raise e ->
  e = ZeroDivisionError \/ e = IndexError.
Proof.
  unfold year_body, debt_service_of. intro H.
  apply bind_raise_inv in H as [H | (ds & _ & H)].
  - destruct (_ <=? _)%Z; [| discriminate].
    destruct (nth_error _ _); [discriminate |]. injection H as <-. auto.
  - apply bind_raise_inv in H as [H | (dep & _ & H)]; [| discriminate].
    apply div_raise_inv in H as [-> _]. auto.
Qed.

(** A loan that can be scheduled always yields the yearly rows, one per
    year of the horizon. *)
Lemma year_rows_defined (proj : project) (fin : financing) (cfg : config)
      (loan : list loan_entry) :
  loan_schedule (debt_principal proj fin) (interest_rate fin)
    (term_years fin) = Ok loan ->
  exists rows,
    year_rows proj fin cfg = Ok rows /\
    List.length rows = Z.to_nat (project_life_years cfg) /\
    Forall (fun row =>
              yr_debt_service row = 0 \/
              exists e, In e loan /\ yr_debt_service row = le_payment e)
           rows.
Proof.
  intro Hloan. unfold year_rows. rewrite Hloan. cbn [Py.bind].
  rewrite year_loop_traverse.
  set (body := year_body proj (tax_rate cfg) (project_life_years cfg)
                 (opex_escalation cfg)
                 (capacity_mw proj * cf_year1 proj * 8760.0) loan).
  assert (Hall : forall ys,
             (forall y, In y ys -> (1 <= y <= project_life_years cfg)%Z) ->
             exists rows,
               traverse body ys = Ok rows /\
               List.length rows = List.length ys /\
               Forall (fun row =>
                         yr_debt_service row = 0 \/
                         exists e, In e loan /\
                                   yr_debt_service row = le_payment e)
                      rows).
  { induction ys as [| y ys IH]; intro Hys.
    - exists []. repeat split. constructor.
    - destruct (year_body_defined proj (tax_rate cfg)
                  (project_life_years cfg) (opex_escalation cfg)
                  (capacity_mw proj * cf_year1 proj * 8760.0) loan y)
        as (row & Hrow & _ & _ & Hds); [apply Hys; now left |].
      destruct IH as (rows & Hrows & Hlen & Hfa);
        [intros; apply Hys; now right |].
      exists (row :: rows). cbn [traverse]. fold body in Hrow.
      rewrite Hrow. cbn [Py.bind]. rewrite Hrows. cbn [Py.bind].
      repeat split; [simpl; now rewrite Hlen | now constructor]. }
  destruct (Hall (range1 (project_life_years cfg)))
    as (rows & Hrows & Hlen & Hfa); [apply in_range1 |].
  exists rows. rewrite range1_length in Hlen. auto.
Qed.

Lemma year_rows_inv (proj : project) (fin : financing) (cfg : config)
      (rows : list year_row) :
  year_rows proj fin cfg = Ok rows ->
  exists loan,
    loan_schedule (debt_principal proj fin) (interest_rate fin)
      (term_years fin) = Ok loan.
Proof.
  unfold year_rows. intro H. apply bind_ok_inv in H as (loan & Hl & _).
  eauto.
Qed.

(* ================================================================== *)
(** ** The DSCR loop *)

Lemma nth_error_map_middle {A B} (f : A -> B) (done rows : list A)
      (row : A) :
  nth_error (map f (done ++ row :: rows)) (List.length done) =
  Some (f row).
Proof.
  rewrite map_app, nth_error_app2 by (rewrite length_map; lia).
  now rewrite length_map, Nat.sub_diag.
Qed.

Lemma dscr_loop_ratios (all rows done : list year_row) (acc : list Q) :
  all = done ++ rows ->
  dscr_loop (map yr_revenue all) (map yr_opex all)
    (map yr_debt_service rows) (List.length done) acc =
  Ok (acc ++ dscr_ratios rows).
Proof.
  revert done acc. induction rows as [| row rows IH]; intros done acc Hall.
  - cbn. now rewrite app_nil_r.
  - cbn [map dscr_loop]. unfold dscr_ratios. cbn [filter].
    assert (Hshift : all = (done ++ [row]) ++ rows)
      by (rewrite Hall, <- app_assoc; reflexivity).
    assert (Hlen : S (List.length done) = List.length (done ++ [row]))
      by (rewrite length_app; simpl; lia).
    unfold gtb, ltb, leb.
    destruct (Qle_bool (yr_debt_service row) 0) eqn:E; cbn [negb].
    + rewrite Hlen. now apply IH.
    + assert (Hrev : nth_error (map yr_revenue all) (List.length done)
                     = Some (yr_revenue row))
        by (rewrite Hall; apply nth_error_map_middle).
      assert (Hopx : nth_error (map yr_opex all) (List.length done)
                     = Some (yr_opex row))
        by (rewrite Hall; apply nth_error_map_middle).
      rewrite Hrev, Hopx, div_ok.
      2:{ intro H0. rewrite H0 in E. discriminate E. }
      cbn [Py.bind map]. rewrite Hlen.
      rewrite (IH (done ++ [row]) _ Hshift). unfold dscr_ratios.
      now rewrite <- app_assoc.
Qed.

Lemma min_dscr_of_rows (rows : list year_row) :
  min_dscr_of (map yr_revenue rows) (map yr_opex rows)
    (map yr_debt_service rows) = Ok (min_or_none (dscr_ratios rows)).
Proof.
  unfold min_dscr_of.
  pose proof (dscr_loop_ratios rows rows [] [] eq_refl) as H.
  cbn [app List.length] in H. now rewrite H.
Qed.

Lemma min_list_spec (x : Q) (xs : list Q) :
  In (min_list x xs) (x :: xs) /\
  forall y, In y (x :: xs) -> min_list x xs <= y.
Proof.
  unfold min_list. revert x. induction xs as [| z xs IH]; intro x.
  - simpl. split; [auto | intros y [<- | []]; lra].
  - cbn [fold_left]. destruct (ltb z x) eqn:E.
    + apply ltb_true in E. destruct (IH z) as [H1 H2]. split.
      * destruct H1 as [H1 | H1]; [right; left; exact H1 | right; right; exact H1].
      * intros y [<- | [<- | Hy]].
        -- specialize (H2 z (or_introl eq_refl)). lra.
        -- apply H2. now left.
        -- apply H2. now right.
    + apply ltb_false in E. destruct (IH x) as [H1 H2]. split.
      * destruct H1 as [H1 | H1]; [left; exact H1 | right; right; exact H1].
      * intros y [<- | [<- | Hy]].
        -- apply H2. now left.
        -- specialize (H2 x (or_introl eq_refl)). lra.
        -- apply H2. now right.
Qed.

Lemma in_dscr_ratios (rows : list year_row) (v : Q) :
  In v (dscr_ratios rows) <->
  exists row,
    In row rows /\ 0 < yr_debt_service row /\
    v = (yr_revenue row - yr_opex row) / yr_debt_service row.
Proof.
  unfold dscr_ratios. rewrite in_map_iff. split.
  - intros (row & <- & H). apply filter_In in H as [H1 H2].
    apply gtb_true in H2. eauto.
  - intros (row & H1 & H2 & ->). exists row. split; [reflexivity |].
    apply filter_In. split; [exact H1 | now apply gtb_true].
Qed.

Lemma dscr_ratios_nil (rows : list year_row) :
  dscr_ratios rows = [] <->
  Forall (fun row => yr_debt_service row <= 0) rows.
Proof.
  split.
  - intro H. apply Forall_forall. intros row Hin.
    apply Qnot_lt_le. intro Hpos.
    assert (Hv : In ((yr_revenue row - yr_opex row) / yr_debt_service row)
                    (dscr_ratios rows))
      by (apply in_dscr_ratios; eauto).
    rewrite H in Hv. destruct Hv.
  - intro H. destruct (dscr_ratios rows) as [| v vs] eqn:E; [reflexivity |].
    assert (Hv : In v (dscr_ratios rows)) by (rewrite E; now left).
    apply in_dscr_ratios in Hv as (row & Hin & Hpos & _).
    rewrite Forall_forall in H. specialize (H row Hin). lra.
Qed.

Lemma loan_payment_zero_principal (principal rate : Q) (term : Z)
      (payment : Q) :
  principal == 0 ->
  loan_payment principal rate term = Ok payment -> payment == 0.
Proof.
  intros Hp. unfold loan_payment. destruct (neqb rate 0).
  - intro H. apply bind_ok_inv in H as (p1 & _ & H).
    apply bind_ok_inv in H as (p2 & _ & H).
    apply bind_ok_inv in H as (af & _ & H).
    injection H as <-. rewrite Hp. ring.
  - intro H. apply div_inv in H as [Hn ->]. rewrite Hp. field. exact Hn.
Qed.

Lemma compute_ok_inv (proj : project) (fin : financing) (cfg : config)
      (res : proforma) :
  compute_project_finance proj fin cfg = Ok res ->
  exists rows irr_val npv_val,
    year_rows proj fin cfg = Ok rows /\
    irr (series_of proj fin rows) default_guess default_tol
      default_maxiter = Ok irr_val /\
    npv (discount_rate cfg) (series_of proj fin rows) = Ok npv_val /\
    res = mk_proforma irr_val npv_val (payback (series_of proj fin rows))
            (min_or_none (dscr_ratios rows)).
Proof.
  unfold compute_project_finance. intro H.
  apply bind_ok_inv in H as (rows & Hrows & H).
  apply bind_ok_inv in H as (irr_val & Hirr & H).
  apply bind_ok_inv in H as (npv_val & Hnpv & H).
  rewrite min_dscr_of_rows in H. cbn [Py.bind] in H. injection H as <-.
  exists rows, irr_val, npv_val. auto.
Qed.

Lemma year_rows_debt_service (proj : project) (fin : financing)
      (cfg : config) (rows : list year_row) :
  year_rows proj fin cfg = Ok rows ->
  exists payment,
    loan_payment (debt_principal proj fin) (interest_rate fin)
      (term_years fin) = Ok payment /\
    Forall (fun row =>
              yr_debt_service row = 0 \/ yr_debt_service row = payment)
           rows.
Proof.
  intro Hrows. destruct (year_rows_inv _ _ _ _ Hrows) as [loan Hloan].
  destruct (year_rows_defined proj fin cfg loan Hloan)
    as (rows' & Hrows' & _ & Hfa).
  rewrite Hrows in Hrows'. injection Hrows' as <-.
  unfold loan_schedule in Hloan.
  apply bind_ok_inv in Hloan as (payment & Hpay & Hloan).
  injection Hloan as <-. exists payment. split; [exact Hpay |].
  eapply Forall_impl; [| exact Hfa]. intros row [H | (e & He & H)];
    [now left | right].
  rewrite H. eapply loan_loop_payment, He.
Qed.

(** C8: the DSCR step never faults; it yields [None] exactly when no
    year has positive debt service, in particular when [debt_pct = 0];
    otherwise it yields the least ratio [(revenue - opex) / debt_service]
    over the years with positive debt service, which is positive when
    revenue exceeds opex in each of them. *)
Theorem min_dscr_characterisation (proj : project) (fin : financing)
        (cfg : config) (rows : list year_row) :
  year_rows proj fin cfg = Ok rows ->
  exists m,
    min_dscr_of (map yr_revenue rows) (map yr_opex rows)
      (map yr_debt_service rows) = Ok m /\
    (forall res,
        compute_project_finance proj fin cfg = Ok res ->
        pf_min_dscr res = m) /\
    (m = None <-> Forall (fun row => yr_debt_service row <= 0) rows) /\
    (debt_pct fin == 0 -> m = None) /\
    (forall v,
        m = Some v ->
        (exists row,
            In row rows /\ 0 < yr_debt_service row /\
            v = (yr_revenue row - yr_opex row) / yr_debt_service row) /\
        (forall row,
            In row rows -> 0 < yr_debt_service row ->
            v <= (yr_revenue row - yr_opex row) / yr_debt_service row) /\
        ((forall row,
             In row rows -> 0 < yr_debt_service row ->
             yr_opex row < yr_revenue row) ->
         0 < v)).
Proof.
  intro Hrows. exists (min_or_none (dscr_ratios rows)).
  assert (Hnone : min_or_none (dscr_ratios rows) = None <->
                  Forall (fun row => yr_debt_service row <= 0) rows).
  { rewrite <- dscr_ratios_nil.
    destruct (dscr_ratios rows); simpl; split; intro; congruence. }
  split; [apply min_dscr_of_rows |].
  split.
  { intros res Hres. apply compute_ok_inv in Hres
      as (rows' & iv & nv & Hrows' & _ & _ & ->).
    rewrite Hrows in Hrows'. now injection Hrows' as <-. }
  split; [exact Hnone |].
  split.
  { intro Hd. apply Hnone.
    destruct (year_rows_debt_service _ _ _ _ Hrows) as (payment & Hpay & Hfa).
    assert (Hz : payment == 0).
    { eapply loan_payment_zero_principal; [| exact Hpay].
      unfold debt_principal. rewrite Hd. ring. }
    eapply Forall_impl; [| exact Hfa].
    intros row [-> | ->]; [lra | rewrite Hz; lra]. }
  intros v Hv. destruct (dscr_ratios rows) as [| x xs] eqn:E;
    [discriminate |].
  cbn [min_or_none] in Hv. injection Hv as <-.
  destruct (min_list_spec x xs) as [Hin Hle]. rewrite <- E in Hin, Hle.
  assert (Hex := proj1 (in_dscr_ratios rows _) Hin).
  split; [exact Hex |]. split.
  - intros row Hrow Hpos. apply Hle. apply in_dscr_ratios. eauto.
  - intro Hall. destruct Hex as (row & Hrow & Hpos & ->).
    specialize (Hall row Hrow Hpos).
    apply Qlt_shift_div_l; [exact Hpos | lra].
Qed.

Lemma short_loan_rows_ok :
  is_ok (year_rows sunny_ridge short_financing short_config) = true.
Proof. vm_compute. reflexivity. Qed.

Lemma min_dscr_characterisation_witness :
  exists rows m,
    year_rows sunny_ridge short_financing short_config = Ok rows /\
    min_dscr_of (map yr_revenue rows) (map yr_opex rows)
      (map yr_debt_service rows) = Ok m /\
    (m = None <-> Forall (fun row => yr_debt_service row <= 0) rows).
Proof.
  destruct (is_ok_inv _ short_loan_rows_ok) as [rows Hrows].
  destruct (min_dscr_characterisation sunny_ridge short_financing
              short_config rows Hrows) as (m & Hm & _ & Hnone & _).
  exists rows, m. auto.
Defined.

(* ================================================================== *)
(** ** Failures of the engine *)

Lemma loan_payment_raise_only (principal rate : Q) (term : Z) (e : exn) :
  loan_payment principal rate term = Raise e -> e = ZeroDivisionError.
Proof.
  unfold loan_payment, pow. destruct (neqb rate 0).
  - destruct (Qeq_bool (1 + rate) 0 && (term <? 0)%Z); cbn [Py.bind].
    + intro H. now injection H as <-.
    + intro H. apply bind_raise_inv in H as [H | (af & _ & H)];
        [now apply div_raise_inv in H | discriminate].
  - intro H. now apply div_raise_inv in H.
Qed.

Lemma year_rows_raise_only (proj : project) (fin : financing)
      (cfg : config) (e : exn) :
  year_rows proj fin cfg = Raise e -> e = ZeroDivisionError.
Proof.
  intro H.
  destruct (loan_schedule (debt_principal proj fin) (interest_rate fin)
              (term_years fin)) as [loan | e'] eqn:Hloan.
  - destruct (year_rows_defined proj fin cfg loan Hloan) as (rows & Hr & _).
    congruence.
  - unfold year_rows in H. rewrite Hloan in H. cbn [Py.bind] in H.
    injection H as <-. unfold loan_schedule in Hloan.
    apply bind_raise_inv in Hloan as [Hl | (p & _ & Hl)];
      [now apply loan_payment_raise_only in Hl | discriminate].
Qed.

(** In exact arithmetic the only exception the engine raises is a
    division by zero. *)
Lemma compute_raise_only (proj : project) (fin : financing) (cfg : config)
      (e : exn) :
  compute_project_finance proj fin cfg = Raise e -> e = ZeroDivisionError.
Proof.
  unfold compute_project_finance. intro H.
  apply bind_raise_inv in H as [H | (rows & _ & H)];
    [now apply year_rows_raise_only in H |].
  apply bind_raise_inv in H as [H | (iv & _ & H)];
    [now apply irr_loop_raise_only in H |].
  apply bind_raise_inv in H as [H | (nv & _ & H)];
    [now apply npv_raise_only in H |].
  rewrite min_dscr_of_rows in H. discriminate.
Qed.

Lemma loan_payment_zero_term (principal rate : Q) :
  loan_payment principal rate 0 = Raise ZeroDivisionError.
Proof.
  unfold loan_payment. destruct (neqb rate 0).
  - rewrite pow_nonneg_exp by lia. cbn [Py.bind].
    rewrite div_raise; [reflexivity |]. rewrite Qpower_0_r. ring.
  - apply div_raise. reflexivity.
Qed.

(** With a horizon of zero or fewer years the series is the equity
    outflow alone. *)
Lemma single_flow_irr (x : Q) :
  irr [x] default_guess default_tol default_maxiter = Ok default_guess.
Proof.
  unfold irr. change (Z.to_nat default_maxiter) with (S 199).
  cbn [irr_loop]. rewrite irr_body_defined
    by (unfold default_guess; lra).
  replace (Qle_bool (Qabs (dnpv_sum default_guess [x])) abs_tol_d_npv)
    with true; [reflexivity |].
  symmetry. apply Qle_bool_iff.
  assert (H : dnpv_sum default_guess [x] == 0).
  { unfold dnpv_sum, sigma. cbn [List.length seq combine fold_left fst snd].
    change (inject_Z (Z.of_nat 0)) with 0. unfold default_guess. field. 
    cbn. lra. }
  rewrite H. unfold abs_tol_d_npv. cbn. lra.
Qed.

Lemma single_flow_npv (rate x : Q) :
  exists v, npv rate [x] = Ok v /\ v == x.
Proof.
  unfold npv, sum_enumerate. cbn [sum_from].
  change ((1 + rate) ^ Z.of_nat 0) with 1.
  rewrite div_ok by lra. cbn [Py.bind]. eexists. split; [reflexivity |].
  field.
Qed.

Lemma range1_nonpos (n : Z) : (n <= 0)%Z -> range1 n = [].
Proof.
  intro H. unfold range1. now replace (Z.to_nat n) with 0%nat by lia.
Qed.

(** At a discount rate of -100% the engine fails on every horizon of at
    least one year. *)
Lemma compute_total_loss (proj : project) (fin : financing) (cfg : config) :
  0 <= interest_rate fin -> (0 < term_years fin)%Z ->
  (0 < project_life_years cfg)%Z -> 1 + discount_rate cfg == 0 ->
  compute_project_finance proj fin cfg = Raise ZeroDivisionError.
Proof.
  intros Hr Ht Hy Hd.
  destruct (loan_payment_valid (debt_principal proj fin) _ _ Hr Ht)
    as (payment & Hpay & _).
  assert (Hloan : exists loan,
             loan_schedule (debt_principal proj fin) (interest_rate fin)
               (term_years fin) = Ok loan).
  { unfold loan_schedule. rewrite Hpay. cbn [Py.bind]. eauto. }
  destruct Hloan as [loan Hloan].
  destruct (year_rows_defined proj fin cfg loan Hloan)
    as (rows & Hrows & Hlen & _).
  unfold compute_project_finance. rewrite Hrows. cbn [Py.bind].
  destruct (irr _ _ _ _) as [iv | e] eqn:Hirr; cbn [Py.bind].
  - rewrite npv_undefined; [reflexivity | exact Hd |].
    unfold series_of. cbn [List.length]. rewrite length_map. lia.
  - apply irr_loop_raise_only in Hirr. now subst.
Qed.

(* ================================================================== *)
(** ** Validation (C3) *)

(** C3, as stated, fails: a horizon of zero years and a debt fraction
    of 150% are both accepted and produce a numeric record. *)
Lemma invalid_inputs_accepted :
  (project_life_years zero_life_config <= 0)%Z /\
  ~ (0 <= debt_pct (tiny_financing 1.5) <= 1) /\
  is_ok (compute_project_finance sunny_ridge short_financing
           zero_life_config) = true /\
  is_ok (compute_project_finance tiny_project (tiny_financing 1.5)
           tiny_config) = true.
Proof.
  split; [simpl; lia |]. split; [simpl; lra |].
  split; vm_compute; reflexivity.
Qed.

(** C3 (amended): the engine validates nothing.  With
    [project_life_years <= 0] and a loan that can be scheduled it
    returns the numeric record [irr = 0.08],
    [npv = -(capex - capex * debt_pct)], no payback year and no DSCR;
    [debt_pct], whatever its value, enters the series unclamped; and
    [term_years = 0] fails with the division by zero of the payment
    formula, not with a validation failure. *)
Theorem engine_does_not_validate (proj : project) (fin : financing)
        (cfg : config) :
  ((project_life_years cfg <= 0)%Z ->
   is_ok (loan_schedule (debt_principal proj fin) (interest_rate fin)
            (term_years fin)) = true ->
   exists res,
     compute_project_finance proj fin cfg = Ok res /\
     pf_irr res = default_guess /\
     pf_npv res == - (capex proj - capex proj * debt_pct fin) /\
     pf_payback_year res = None /\ pf_min_dscr res = None) /\
  (forall res,
      compute_project_finance proj fin cfg = Ok res ->
      exists rows,
        year_rows proj fin cfg = Ok rows /\
        npv (discount_rate cfg)
          (- (capex proj - capex proj * debt_pct fin)
           :: map yr_cashflow rows) = Ok (pf_npv res)) /\
  (term_years fin = 0%Z ->
   compute_project_finance proj fin cfg = Raise ZeroDivisionError).
Proof.
  split.
  { intros Hy Hloan. apply is_ok_inv in Hloan as [loan Hloan].
    destruct (year_rows_defined proj fin cfg loan Hloan)
      as (rows & Hrows & Hlen & _).
    assert (rows = []) as ->.
    { destruct rows; [reflexivity | simpl in Hlen; lia]. }
    unfold compute_project_finance. rewrite Hrows. cbn [Py.bind].
    unfold series_of. cbn [map].
    rewrite single_flow_irr. cbn [Py.bind].
    destruct (single_flow_npv (discount_rate cfg) (- equity proj fin))
      as (v & -> & Hv).
    cbn [Py.bind]. eexists. split; [reflexivity |].
    cbn [pf_irr pf_npv pf_payback_year pf_min_dscr].
    repeat split. exact Hv. }
  split.
  { intros res Hres. apply compute_ok_inv in Hres
      as (rows & iv & nv & Hrows & _ & Hnpv & ->).
    exists rows. split; [exact Hrows | exact Hnpv]. }
  intro Ht. unfold compute_project_finance, year_rows, loan_schedule.
  rewrite Ht, loan_payment_zero_term. reflexivity.
Qed.

Lemma engine_does_not_validate_witness :
  (project_life_years zero_life_config <= 0)%Z /\
  exists res,
    compute_project_finance sunny_ridge short_financing zero_life_config
    = Ok res /\
    pf_irr res = default_guess /\
    pf_npv res ==
      - (capex sunny_ridge
         - capex sunny_ridge * debt_pct short_financing) /\
    pf_payback_year res = None /\ pf_min_dscr res = None.
Proof.
  assert (Hy : (project_life_years zero_life_config <= 0)%Z)
    by (simpl; lia).
  split; [exact Hy |].
  apply (proj1 (engine_does_not_validate sunny_ridge short_financing
                  zero_life_config) Hy).
  vm_compute. reflexivity.
Defined.

(* ================================================================== *)
(** ** Failure of a grid point (C2) and the shape of the output (C5) *)

Lemma traverse_ok_each {A B} (f : A -> result B) (xs : list A)
      (ys : list B) :
  traverse f xs = Ok ys -> forall x, In x xs -> is_ok (f x) = true.
Proof.
  intro H. apply traverse_ok_Forall2 in H.
  induction H as [| x y xs ys Hx _ IH]; intros a Ha; [destruct Ha |].
  destruct Ha as [<- | Ha]; [now rewrite Hx | now apply IH].
Qed.

Lemma sunny_ridge_valid :
  valid_project sunny_ridge /\
  valid_financing sunny_ridge_financing total_loss_config /\
  valid_config total_loss_config.
Proof.
  unfold valid_project, valid_financing, valid_config. cbn.
  repeat split; try lra; try lia.
Qed.

(** C2, as stated, fails: on the seeded project, with a discount rate
    of -100% in the configuration, the first grid point fails and the
    whole sweep ends in that exception, with no row and no marker. *)
Lemma sweep_aborts_on_first_grid_point :
  valid_project sunny_ridge /\
  valid_financing sunny_ridge_financing total_loss_config /\
  (exists pt rest,
      grid_points (debt_pct sunny_ridge_financing) = pt :: rest /\
      is_ok (eval_point sunny_ridge sunny_ridge_financing
               total_loss_config pt) = false) /\
  run_sensitivity (Some sunny_ridge) (Some sunny_ridge_financing)
    total_loss_config = Raise ZeroDivisionError.
Proof.
  destruct sunny_ridge_valid as (Hp & Hf & _).
  split; [exact Hp |]. split; [exact Hf |].
  assert (Hpt : forall pt,
             eval_point sunny_ridge sunny_ridge_financing
               total_loss_config pt = Raise ZeroDivisionError).
  { intros [[ppa_m capex_m] debt]. unfold eval_point.
    rewrite compute_total_loss; [reflexivity | cbn; lra | cbn; lia
                                | cbn; lia | cbn; lra]. }
  split.
  - eexists. eexists. split; [reflexivity |]. now rewrite Hpt.
  - rewrite run_sensitivity_some, sweep_traverse.
    unfold grid_points. cbn [ppa_mults capex_mults debt_levels flat_map map app traverse].
    rewrite Hpt. reflexivity.
Qed.

(** C2 (amended): when the evaluation of a grid point fails,
    [run_sensitivity] aborts: the exception of the first failing point,
    in enumeration order, is the outcome of the whole sweep, and no row
    is returned, not even those computed before it. *)
Theorem sweep_aborts_at_first_failure (proj : project) (fin : financing)
        (cfg : config) (before : list (Q * Q * Q)) (pt : Q * Q * Q)
        (after : list (Q * Q * Q)) (e : exn) :
  grid_points (debt_pct fin) = before ++ pt :: after ->
  (forall a, In a before -> is_ok (eval_point proj fin cfg a) = true) ->
  eval_point proj fin cfg pt = Raise e ->
  run_sensitivity (Some proj) (Some fin) cfg = Raise e.
Proof.
  intros Hg Hok Hpt. rewrite run_sensitivity_some, sweep_traverse, Hg.
  now apply traverse_first_raise.
Qed.

Lemma sweep_aborts_at_first_failure_witness :
  exists pt after,
    grid_points (debt_pct sunny_ridge_financing) = [] ++ pt :: after /\
    eval_point sunny_ridge sunny_ridge_financing total_loss_config pt
    = Raise ZeroDivisionError /\
    run_sensitivity (Some sunny_ridge) (Some sunny_ridge_financing)
      total_loss_config = Raise ZeroDivisionError.
Proof.
  destruct (grid_points (debt_pct sunny_ridge_financing))
    as [| pt after] eqn:Hg; [discriminate Hg |].
  exists pt, after.
  assert (Hpt : eval_point sunny_ridge sunny_ridge_financing
                  total_loss_config pt = Raise ZeroDivisionError).
  { destruct pt as [[ppa_m capex_m] debt]. unfold eval_point.
    rewrite compute_total_loss; [reflexivity | cbn; lra | cbn; lia
                                | cbn; lia | cbn; lra]. }
  split; [reflexivity |]. split; [exact Hpt |].
  apply (sweep_aborts_at_first_failure sunny_ridge sunny_ridge_financing
           total_loss_config [] pt after ZeroDivisionError);
    [exact Hg | intros a [] | exact Hpt].
Defined.

(** Conversely, a sweep that raises does so at a first failing point. *)
Lemma sweep_raise_inv (proj : project) (fin : financing) (cfg : config)
      (e : exn) :
  run_sensitivity (Some proj) (Some fin) cfg = Raise e ->
  exists before pt after,
    grid_points (debt_pct fin) = before ++ pt :: after /\
    (forall a, In a before -> is_ok (eval_point proj fin cfg a) = true) /\
    eval_point proj fin cfg pt = Raise e.
Proof.
  rewrite run_sensitivity_some, sweep_traverse. apply traverse_raise_inv.
Qed.

(** C5: when every grid point evaluates, the sweep returns exactly 45
    rows, and row [9 i + 3 j + k] carries the [i]-th PPA multiplier of
    [0.90, 0.95, 1.00, 1.05, 1.10], the [j]-th capex multiplier of
    [0.90, 1.00, 1.10] and the [k]-th debt level: PPA is the outer loop,
    capex the middle one, debt the inner one. *)
Theorem sweep_45_rows_in_order (proj : project) (fin : financing)
        (cfg : config) :
  (forall pt,
      In pt (grid_points (debt_pct fin)) ->
      is_ok (eval_point proj fin cfg pt) = true) ->
  exists rows,
    run_sensitivity (Some proj) (Some fin) cfg = Ok rows /\
    List.length rows = 45%nat /\
    ppa_mults = [0.90; 0.95; 1.00; 1.05; 1.10] /\
    capex_mults = [0.90; 1.00; 1.10] /\
    forall i j k : nat,
      (i < 5)%nat -> (j < 3)%nat -> (k < 3)%nat ->
      option_map coords (nth_error rows (9 * i + 3 * j + k)) =
      Some (nth i ppa_mults 0, nth j capex_mults 0,
            nth k (debt_levels (debt_pct fin)) 0).
Proof.
  intro Hall. rewrite run_sensitivity_some, sweep_traverse.
  destruct (traverse_total _ _ Hall) as [rows Hrows].
  exists rows. split; [exact Hrows |].
  assert (Hc : map coords rows = grid_points (debt_pct fin)).
  { apply sweep_ok_coords with (proj := proj) (cfg := cfg).
    now rewrite sweep_traverse. }
  split.
  { rewrite <- (length_map coords), Hc. apply grid_points_length. }
  split; [reflexivity |]. split; [reflexivity |].
  intros i j k Hi Hj Hk. rewrite <- nth_error_map, Hc.
  destruct i as [| [| [| [| [| i]]]]]; try lia;
    destruct j as [| [| [| j]]]; try lia;
    destruct k as [| [| [| k]]]; try lia; reflexivity.
Qed.

Lemma sweep_45_rows_in_order_witness :
  exists rows,
    run_sensitivity (Some tiny_project) (Some (tiny_financing 0.85))
      tiny_config = Ok rows /\
    List.length rows = 45%nat /\
    option_map coords (nth_error rows (9 * 4 + 3 * 1 + 2)) =
    Some (1.10, 1.00, Py.min 0.95 (0.85 + 0.10)).
Proof.
  destruct (is_ok_inv _ tiny_sweep_ok_085) as [rows0 Hrows0].
  assert (Hall : forall pt,
             In pt (grid_points (debt_pct (tiny_financing 0.85))) ->
             is_ok (eval_point tiny_project (tiny_financing 0.85)
                      tiny_config pt) = true).
  { rewrite run_sensitivity_some, sweep_traverse in Hrows0.
    exact (traverse_ok_each _ _ _ Hrows0). }
  destruct (sweep_45_rows_in_order tiny_project (tiny_financing 0.85)
              tiny_config Hall) as (rows & Hrows & Hlen & _ & _ & Hidx).
  exists rows. split; [exact Hrows |]. split; [exact Hlen |].
  apply (Hidx 4%nat 1%nat 2%nat); lia.
Defined.

(* ================================================================== *)
(** ** Payback (C1) *)

Lemma sum_app (a b : list Q) :
  fold_right Qplus 0 (a ++ b) ==
  fold_right Qplus 0 a + fold_right Qplus 0 b.
Proof.
  induction a as [| x a IH]; simpl; [ring | rewrite IH; ring].
Qed.

Lemma cumulative_sum_prefix (pre : list Q) (cf : Q) (rest : list Q) :
  cumulative_sum (pre ++ cf :: rest) (List.length pre) ==
  fold_right Qplus 0 pre + cf.
Proof.
  unfold cumulative_sum.
  replace (S (List.length pre)) with (List.length (pre ++ [cf]))
    by (rewrite length_app; simpl; lia).
  change (pre ++ cf :: rest) with (pre ++ [cf] ++ rest).
  rewrite app_assoc, firstn_app, firstn_all, Nat.sub_diag, firstn_O,
    app_nil_r, sum_app.
  simpl. ring.
Qed.

Lemma cumulative_sum_app_lt (pre rest : list Q) (s : nat) :
  (s < List.length pre)%nat ->
  cumulative_sum (pre ++ rest) s = cumulative_sum pre s.
Proof.
  intro Hs. unfold cumulative_sum. rewrite firstn_app.
  replace (S s - List.length pre)%nat with 0%nat by lia.
  now rewrite firstn_O, app_nil_r.
Qed.

(** What the payback loop computes from its current state: [pre] is the
    part of the series already consumed, year 0 included. *)
Lemma payback_loop_spec (l pre : list Q) (cum : Q) (k : nat) :
  List.length pre = S k ->
  cum == fold_right Qplus 0 pre ->
  (forall s, (1 <= s <= k)%nat -> cumulative_sum pre s <= 0) ->
  is_payback (pre ++ l) (payback_loop l (Z.of_nat (S k)) cum).
Proof.
  revert pre cum k. induction l as [| cf l IH]; intros pre cum k Hlen Hcum Hle.
  - cbn [payback_loop is_payback]. rewrite app_nil_r. intros s Hs.
    apply Hle. lia.
  - cbn [payback_loop].
    assert (Hk : cumulative_sum (pre ++ cf :: l) (S k) == cum + cf).
    { rewrite <- Hlen, cumulative_sum_prefix, Hcum. reflexivity. }
    destruct (gtb (cum + cf) 0) eqn:E.
    + apply gtb_true in E. cbn [is_payback]. exists (S k).
      repeat split; try lia.
      * rewrite length_app. simpl. lia.
      * rewrite Hk. exact E.
      * intros s Hs. rewrite cumulative_sum_app_lt by lia.
        apply Hle. lia.
    + apply gtb_false in E.
      change (pre ++ cf :: l) with (pre ++ [cf] ++ l). rewrite app_assoc.
      replace (Z.of_nat (S k) + 1)%Z with (Z.of_nat (S (S k))) by lia.
      apply IH.
      * rewrite length_app. simpl. lia.
      * rewrite sum_app, Hcum. simpl. ring.
      * intros s Hs. destruct (Nat.eq_dec s (S k)) as [-> | Hne].
        -- assert (H := cumulative_sum_prefix pre cf []).
           rewrite Hlen in H. rewrite H, <- Hcum. exact E.
        -- rewrite cumulative_sum_app_lt by lia. apply Hle. lia.
Qed.

(** The code's payback year is the payback year of the series whose
    year-0 entry is replaced by zero: the equity outflow never enters
    the running sum. *)
Lemma payback_skips_year_0 (x : Q) (flows : list Q) :
  is_payback (0 :: flows) (payback (x :: flows)).
Proof.
  unfold payback. cbn [tl].
  apply (payback_loop_spec flows [0] 0.0 0).
  - reflexivity.
  - reflexivity.
  - intros s Hs. lia.
Qed.

(** C1 (the code departs from it): on the two-year project the equity
    outflow of 1,300,000 is followed by two inflows of 729,000; the
    cumulative sum first turns positive in year 2, yet the engine
    reports year 1. *)
Theorem payback_ignores_equity_outflow :
  exists rows res,
    year_rows two_year_project two_year_financing two_year_config
    = Ok rows /\
    compute_project_finance two_year_project two_year_financing
      two_year_config = Ok res /\
    pf_payback_year res = Some 1%Z /\
    is_payback (series_of two_year_project two_year_financing rows)
      (Some 2%Z) /\
    ~ is_payback (series_of two_year_project two_year_financing rows)
        (pf_payback_year res).
Proof.
  eexists. eexists.
  split; [vm_compute; reflexivity |].
  split; [vm_compute; reflexivity |].
  split; [reflexivity |].
  split.
  - exists 2%nat. repeat split.
    + vm_compute. lia.
    + vm_compute. lia.
    + intros s Hs. assert (s = 1%nat) as -> by lia.
      vm_compute. discriminate.
  - cbn [pf_payback_year]. intros (t & Ht & _ & Hpos & _).
    assert (t = 1%nat) as -> by lia.
    vm_compute in Hpos. discriminate Hpos.
Qed.

(* ================================================================== *)
(** ** The exits of [irr] (C6, C9) *)

Lemma irr_body_inv (cfs : list Q) (tol r : Q) (c : ctl Q Q) :
  irr_body cfs tol r = Ok c ->
  exists nv dv,
    npv r cfs = Ok nv /\ d_npv r cfs = Ok dv /\
    match c with
    | Break v => v = r /\ Qabs dv <= abs_tol_d_npv
    | Return v =>
        abs_tol_d_npv < Qabs dv /\ v = r - nv / dv /\
        Qabs (v - r) < tol
    | Next v =>
        abs_tol_d_npv < Qabs dv /\ v = r - nv / dv /\
        tol <= Qabs (v - r)
    end.
Proof.
  unfold irr_body. intro H.
  apply bind_ok_inv in H as (nv & Hnv & H).
  apply bind_ok_inv in H as (dv & Hdv & H).
  exists nv, dv. split; [exact Hnv |]. split; [exact Hdv |].
  rewrite isclose_zero in H.
  destruct (Qle_bool (Qabs dv) abs_tol_d_npv) eqn:E.
  - injection H as <-. split; [reflexivity | now apply Qle_bool_iff].
  - apply leb_false in E.
    apply bind_ok_inv in H as (q & Hq & H).
    apply div_inv in Hq as [_ ->].
    destruct (ltb (Qabs (r - nv / dv - r)) tol) eqn:El;
      injection H as <-.
    + apply ltb_true in El. auto.
    + apply ltb_false in El. auto.
Qed.

Lemma newton_step_residual (r nv dv tol : Q) :
  0 < Qabs dv -> Qabs (r - nv / dv - r) < tol -> Qabs nv < tol * Qabs dv.
Proof.
  intros Hd Hstep.
  assert (Hz : ~ dv == 0).
  { intro H0. rewrite H0 in Hd. cbn in Hd. lra. }
  assert (E : Qabs (r - nv / dv - r) == Qabs nv * / Qabs dv).
  { rewrite <- Qabs_Qinv, <- Qabs_Qmult, <- (Qabs_opp (nv * / dv)).
    apply Qabs_wd. unfold Qdiv. ring. }
  rewrite E in Hstep.
  assert (Hn : Qabs nv == Qabs nv * / Qabs dv * Qabs dv) by (field; lra).
  rewrite Hn. apply Qmult_lt_compat_r; assumption.
Qed.

(** How a loop of at least one iteration that returns came to its
    value: by the tolerance test, by the derivative guard, or by running
    out of iterations after a last, still long, step. *)
Lemma irr_loop_exit (cfs : list Q) (tol : Q) (n : nat) (r v : Q) :
  irr_loop cfs tol (S n) r = Ok v ->
  (exists r', irr_body cfs tol r' = Ok (Return v)) \/
  irr_body cfs tol v = Ok (Break v) \/
  (exists r', irr_body cfs tol r' = Ok (Next v)).
Proof.
  revert r. induction n as [| n IH]; intros r H;
    cbn [irr_loop] in H; apply bind_ok_inv in H as (c & Hc & H).
  - destruct c as [r' | r' | v']; injection H as <-.
    + right. right. eauto.
    + right. left. destruct (irr_body_inv _ _ _ _ Hc) as (? & ? & _ & _ & Hr & _).
      now rewrite Hr in Hc |- *.
    + left. eauto.
  - destruct c as [r' | r' | v'].
    + apply IH in H. exact H.
    + injection H as <-. right. left.
      destruct (irr_body_inv _ _ _ _ Hc) as (? & ? & _ & _ & Hr & _).
      now rewrite Hr in Hc |- *.
    + injection H as <-. left. eauto.
Qed.

(** C9, as stated, fails: the series [-1, 1e-13] has one sign change;
    its derivative at 0.08 is below the guard, so [irr] returns the
    starting guess, where the NPV is close to -1. *)
Lemma irr_not_a_root :
  sign_changes negligible_inflow = 1%nat /\
  exists r v,
    irr negligible_inflow default_guess default_tol default_maxiter
    = Ok r /\
    npv r negligible_inflow = Ok v /\ ~ Qabs v <= 0.0001.
Proof.
  split; [reflexivity |]. eexists. eexists.
  split; [vm_compute; reflexivity |].
  split; [vm_compute; reflexivity |].
  intro H. vm_compute in H. apply H. reflexivity.
Qed.

(** The same happens on the tolerance exit when the flows are large: the
    step from 0.08 is shorter than 1e-6 while the NPV at the result is
    about 0.25. *)
Lemma irr_tolerance_exit_not_a_root :
  sign_changes large_flows = 1%nat /\
  exists r v,
    irr_body large_flows default_tol default_guess = Ok (Return r) /\
    irr large_flows default_guess default_tol default_maxiter = Ok r /\
    npv r large_flows = Ok v /\ ~ Qabs v <= 0.0001.
Proof.
  split; [reflexivity |]. eexists. eexists.
  split; [vm_compute; reflexivity |].
  split; [vm_compute; reflexivity |].
  split; [vm_compute; reflexivity |].
  intro H. vm_compute in H. apply H. reflexivity.
Qed.

(** C9 (amended): the value [irr] returns is tied to the NPV function
    only through its last Newton step.  On the tolerance exit from an
    estimate [r] it is [r - NPV(r)/NPV'(r)] with
    [|NPV(r)| < 1e-6 * |NPV'(r)|]; on the derivative guard it is the
    current estimate, with [|NPV'| <= 1e-12] there; after 200
    iterations it is the last Newton step, still at least [1e-6]
    long. *)
Theorem irr_result_residual (cfs : list Q) (v : Q) :
  irr cfs default_guess default_tol default_maxiter = Ok v ->
  (exists r nv dv,
      npv r cfs = Ok nv /\ d_npv r cfs = Ok dv /\
      v = r - nv / dv /\ Qabs nv < default_tol * Qabs dv) \/
  (exists dv, d_npv v cfs = Ok dv /\ Qabs dv <= abs_tol_d_npv) \/
  (exists r nv dv,
      npv r cfs = Ok nv /\ d_npv r cfs = Ok dv /\
      v = r - nv / dv /\ default_tol <= Qabs (v - r)).
Proof.
  unfold irr. change (Z.to_nat default_maxiter) with (S 199). intro H.
  apply irr_loop_exit in H as [(r & Hb) | [Hb | (r & Hb)]];
    destruct (irr_body_inv _ _ _ _ Hb) as (nv & dv & Hnv & Hdv & Hc).
  - left. destruct Hc as (Hd & -> & Hstep). exists r, nv, dv.
    repeat split; try assumption.
    apply newton_step_residual with (r := r); [| exact Hstep].
    unfold abs_tol_d_npv in Hd. lra.
  - right. left. exists dv. split; [exact Hdv | apply Hc].
  - right. right. destruct Hc as (_ & Hv & Hstep). exists r, nv, dv. auto.
Qed.

Lemma irr_result_residual_witness :
  exists v,
    irr large_flows default_guess default_tol default_maxiter = Ok v /\
    ((exists r nv dv,
         npv r large_flows = Ok nv /\ d_npv r large_flows = Ok dv /\
         v = r - nv / dv /\ Qabs nv < default_tol * Qabs dv) \/
     (exists dv,
         d_npv v large_flows = Ok dv /\ Qabs dv <= abs_tol_d_npv) \/
     (exists r nv dv,
         npv r large_flows = Ok nv /\ d_npv r large_flows = Ok dv /\
         v = r - nv / dv /\ default_tol <= Qabs (v - r))).
Proof.
  eexists. split; [vm_compute; reflexivity |].
  apply irr_result_residual. vm_compute. reflexivity.
Defined.

(** C6: [irr] is Newton-Raphson on the NPV function from the guess
    0.08 with at most 200 iterations.  At an estimate [r] other than
    -100%, with [d = sum -t cf_t / (1+r)^(t+1)] and
    [r' = r - NPV(r) / d]: a derivative of magnitude below 1e-12 ends
    the loop with [r]; otherwise a step shorter than 1e-6 ends it with
    [r']; otherwise the loop goes on from [r'].  With no iteration left
    the current estimate is returned.  Altogether the result is that of
    the reference iteration [newton]. *)
Theorem irr_newton_raphson (cfs : list Q) :
  irr cfs default_guess default_tol default_maxiter =
  irr_loop cfs 0.000001 200 0.08 /\
  (forall r, irr_loop cfs default_tol 0 r = Ok r) /\
  (forall (n : nat) (r : Q),
      ~ 1 + r == 0 ->
      npv r cfs = Ok (npv_sum r cfs) /\
      d_npv r cfs = Ok (dnpv_sum r cfs) /\
      (Qabs (dnpv_sum r cfs) < 0.000000000001 ->
       irr_loop cfs default_tol (S n) r = Ok r) /\
      (0.000000000001 < Qabs (dnpv_sum r cfs) ->
       Qabs (newton_next cfs r - r) < 0.000001 ->
       irr_loop cfs default_tol (S n) r = Ok (newton_next cfs r)) /\
      (0.000000000001 < Qabs (dnpv_sum r cfs) ->
       0.000001 <= Qabs (newton_next cfs r - r) ->
       irr_loop cfs default_tol (S n) r =
       irr_loop cfs default_tol n (newton_next cfs r))) /\
  (forall v,
      irr cfs default_guess default_tol default_maxiter = Ok v ->
      v = newton cfs default_tol 200 default_guess) /\
  (Forall (fun r => ~ 1 + r == 0)
     (visited cfs default_tol 200 default_guess) ->
   irr cfs default_guess default_tol default_maxiter =
   Ok (newton cfs default_tol 200 default_guess)).
Proof.
  split; [reflexivity |]. split; [reflexivity |]. split.
  { intros n r Hr.
    split; [now apply npv_defined |]. split; [now apply d_npv_defined |].
    cbn [irr_loop]. rewrite (irr_body_defined cfs default_tol r Hr).
    unfold abs_tol_d_npv, default_tol. repeat split.
    - intro Hd.
      replace (Qle_bool (Qabs (dnpv_sum r cfs)) 0.000000000001) with true;
        [reflexivity |]. symmetry. apply Qle_bool_iff. lra.
    - intros Hd Hs.
      replace (Qle_bool (Qabs (dnpv_sum r cfs)) 0.000000000001) with false
        by (symmetry; apply leb_false; exact Hd).
      replace (Qle_bool 0.000001 (Qabs (newton_next cfs r - r))) with false
        by (symmetry; apply leb_false; exact Hs).
      reflexivity.
    - intros Hd Hs.
      replace (Qle_bool (Qabs (dnpv_sum r cfs)) 0.000000000001) with false
        by (symmetry; apply leb_false; exact Hd).
      replace (Qle_bool 0.000001 (Qabs (newton_next cfs r - r))) with true
        by (symmetry; apply Qle_bool_iff; exact Hs).
      reflexivity. }
  split.
  - intros v H. now apply irr_loop_ok_newton in H.
  - intro Hv. unfold irr. now apply irr_loop_newton.
Qed.

Lemma irr_newton_raphson_witness :
  ~ 1 + 0.08 == 0 /\
  0.000000000001 < Qabs (dnpv_sum 0.08 [-1300000; 729000; 729000]) /\
  Qabs (newton_next [-1300000; 729000; 729000] 0.08 - 0.08) < 0.000001 /\
  irr_loop [-1300000; 729000; 729000] default_tol 200 0.08 =
  Ok (newton_next [-1300000; 729000; 729000] 0.08).
Proof.
  assert (H1 : ~ 1 + 0.08 == 0) by lra.
  assert (H2 : 0.000000000001
               < Qabs (dnpv_sum 0.08 [-1300000; 729000; 729000]))
    by (vm_compute; reflexivity).
  assert (H3 : Qabs (newton_next [-1300000; 729000; 729000] 0.08 - 0.08)
               < 0.000001)
    by (vm_compute; reflexivity).
  split; [exact H1 |]. split; [exact H2 |]. split; [exact H3 |].
  destruct (irr_newton_raphson [-1300000; 729000; 729000])
    as (_ & _ & Hstep & _).
  destruct (Hstep 199%nat 0.08 H1) as (_ & _ & _ & Hret & _).
  exact (Hret H2 H3).
Defined.

(* ================================================================== *)
(** ** Further properties of [npv] and [irr] *)

Lemma fold_left_sum {A} (h : A -> Q) (l : list A) (acc : Q) :
  fold_left (fun a x => a + h x) l acc ==
  acc + fold_right Qplus 0 (map h l).
Proof.
  revert acc. induction l as [| x l IH]; intro acc; simpl;
    [ring | rewrite IH; ring].
Qed.

Lemma sum_all_zero (l : list Q) :
  Forall (fun x => x == 0) l -> fold_right Qplus 0 l == 0.
Proof.
  induction 1 as [| x l Hx _ IH]; simpl; [reflexivity |].
  rewrite Hx, IH. ring.
Qed.

Lemma sigma_discounted (q : Q) (t : nat) (xs : list Q) (acc : Q) :
  fold_left (fun a tx => a + snd tx / q ^ Z.of_nat (fst tx))
    (combine (seq t (List.length xs)) xs) acc ==
  acc + discounted_from q t xs.
Proof.
  revert t acc. induction xs as [| x xs IH]; intros t acc; simpl.
  - ring.
  - rewrite IH. cbn [fst snd]. ring.
Qed.

Lemma npv_sum_discounted (r : Q) (cfs : list Q) :
  npv_sum r cfs == discounted_from (1 + r) 0 cfs.
Proof.
  unfold npv_sum, sigma. rewrite sigma_discounted. ring.
Qed.

Lemma discounted_shift (q : Q) (t : nat) (xs : list Q) :
  ~ q == 0 ->
  discounted_from q (S t) xs == discounted_from q t xs / q.
Proof.
  intro Hq. revert t. induction xs as [| x xs IH]; intro t.
  - cbn [discounted_from]. field. exact Hq.
  - cbn [discounted_from]. rewrite (IH (S t)), (IH t).
    rewrite !Nat2Z.inj_succ. unfold Z.succ.
    rewrite !(Qpower_plus q) by exact Hq. rewrite Qpower_1_r.
    pose proof (Qpower_nat_nonzero q t Hq) as Hp.
    set (p := q ^ Z.of_nat t) in *. field. auto.
Qed.

Lemma discounted_unit (t : nat) (xs : list Q) :
  discounted_from 1 t xs == fold_right Qplus 0 xs.
Proof.
  revert t. induction xs as [| x xs IH]; intro t; cbn [discounted_from];
    [reflexivity |].
  rewrite IH, Qpower_1. simpl. field.
Qed.

(** X1: at a rate of zero the NPV is the plain sum of the series. *)
Theorem npv_zero_rate (cfs : list Q) :
  exists v, npv 0 cfs = Ok v /\ v == fold_right Qplus 0 cfs.
Proof.
  exists (npv_sum 0 cfs). split; [apply npv_defined; lra |].
  rewrite npv_sum_discounted.
  assert (E : 1 + 0 == 1) by ring.
  assert (H : forall t xs, discounted_from (1 + 0) t xs
                           == discounted_from 1 t xs).
  { intros t xs. revert t. induction xs as [| x xs IH]; intro t;
      cbn [discounted_from]; [reflexivity |].
    rewrite IH, E. reflexivity. }
  rewrite H. apply discounted_unit.
Qed.

(** X2: discounting composes year by year: the NPV of a series is its
    first flow plus the NPV of the remaining flows discounted by one
    more year. *)
Theorem npv_discount_recurrence (r c0 : Q) (rest : list Q) :
  ~ 1 + r == 0 ->
  exists v w,
    npv r (c0 :: rest) = Ok v /\ npv r rest = Ok w /\
    v == c0 + w / (1 + r).
Proof.
  intro Hr. exists (npv_sum r (c0 :: rest)), (npv_sum r rest).
  split; [now apply npv_defined |]. split; [now apply npv_defined |].
  rewrite !npv_sum_discounted. cbn [discounted_from].
  rewrite (discounted_shift (1 + r) 0 rest Hr).
  change ((1 + r) ^ Z.of_nat 0) with 1. field. exact Hr.
Qed.

Lemma npv_discount_recurrence_witness :
  ~ 1 + 0.08 == 0 /\
  exists v w,
    npv 0.08 [-1300000; 729000; 729000] = Ok v /\
    npv 0.08 [729000; 729000] = Ok w /\
    v == -1300000 + w / (1 + 0.08).
Proof.
  assert (H : ~ 1 + 0.08 == 0) by lra.
  split; [exact H |].
  exact (npv_discount_recurrence 0.08 (-1300000) [729000; 729000] H).
Defined.

(** X3: a series of at most one flow is never discounted, its NPV is
    its plain sum at every rate; at a rate of -100% a series of two or
    more flows fails with a division by zero. *)
Theorem npv_division_by_zero (r : Q) (cfs : list Q) :
  ((List.length cfs <= 1)%nat ->
   exists v, npv r cfs = Ok v /\ v == fold_right Qplus 0 cfs) /\
  (1 + r == 0 -> (2 <= List.length cfs)%nat ->
   npv r cfs = Raise ZeroDivisionError).
Proof.
  split.
  - intro Hlen. destruct cfs as [| x [| y cfs]].
    + exists 0. split; reflexivity.
    + destruct (single_flow_npv r x) as (v & Hv & Hx).
      exists v. split; [exact Hv |]. cbn [fold_right]. rewrite Hx. ring.
    + simpl in Hlen. lia.
  - apply npv_undefined.
Qed.

Lemma dnpv_sum_flat (r : Q) (cfs : list Q) :
  Forall (fun x => x == 0) (tl cfs) -> dnpv_sum r cfs == 0.
Proof.
  intro Hflat. unfold dnpv_sum, sigma.
  rewrite (fold_left_sum
             (fun tx => (- inject_Z (Z.of_nat (fst tx)) * snd tx)
                        / (1 + r) ^ Z.of_nat (fst tx + 1))).
  rewrite sum_all_zero; [ring |].
  apply Forall_forall. intros v Hv. apply in_map_iff in Hv as (tx & <- & Hin).
  destruct cfs as [| c0 rest]; [destruct Hin |].
  cbn [List.length seq combine tl] in *. destruct Hin as [<- | Hin].
  - cbn [fst snd]. change (inject_Z (Z.of_nat 0)) with 0.
    unfold Qdiv. ring.
  - destruct tx as [t x]. apply in_combine_r in Hin. cbn [fst snd].
    rewrite Forall_forall in Hflat. rewrite (Hflat x Hin).
    unfold Qdiv. ring.
Qed.

(** X4: on a series whose flows after year 0 are all zero (an empty or
    one-element series included) the derivative vanishes and [irr]
    returns its starting guess; so it does whenever [maxiter <= 0]. *)
Theorem irr_returns_guess (cfs : list Q) (guess tol : Q) (maxiter : Z) :
  ((maxiter <= 0)%Z -> irr cfs guess tol maxiter = Ok guess) /\
  (~ 1 + guess == 0 -> Forall (fun x => x == 0) (tl cfs) ->
   irr cfs guess tol maxiter = Ok guess).
Proof.
  unfold irr. split.
  - intro Hm. now replace (Z.to_nat maxiter) with 0%nat by lia.
  - intros Hg Hflat. destruct (Z.to_nat maxiter) as [| n]; [reflexivity |].
    cbn [irr_loop]. rewrite (irr_body_defined cfs tol guess Hg).
    replace (Qle_bool (Qabs (dnpv_sum guess cfs)) abs_tol_d_npv) with true;
      [reflexivity |].
    symmetry. apply Qle_bool_iff.
    rewrite (Qabs_wd _ _ (dnpv_sum_flat guess cfs Hflat)).
    unfold abs_tol_d_npv. cbn. lra.
Qed.

Lemma irr_returns_guess_witness :
  ~ 1 + 0.08 == 0 /\
  Forall (fun x => x == 0) (tl [-1350000; 0; 0; 0]) /\
  irr [-1350000; 0; 0; 0] 0.08 0.000001 200 = Ok 0.08.
Proof.
  assert (H1 : ~ 1 + 0.08 == 0) by lra.
  assert (H2 : Forall (fun x => x == 0) (tl [-1350000; 0; 0; 0]))
    by (repeat constructor).
  split; [exact H1 |]. split; [exact H2 |].
  exact (proj2 (irr_returns_guess [-1350000; 0; 0; 0] 0.08 0.000001 200)
           H1 H2).
Defined.

(* ================================================================== *)
(** ** Further properties of [loan_schedule] *)

Lemma loan_loop_years (ys : list Z) (rate payment b : Q) :
  map le_year (loan_loop ys rate payment b) = ys.
Proof.
  revert b. induction ys as [| y ys IH]; intro b; [reflexivity |].
  rewrite loan_loop_cons. cbn [map le_year]. now rewrite IH.
Qed.

Lemma max_zero_nonneg (x : Q) : 0 <= Py.max x 0.
Proof.
  destruct (max_cases x 0) as [[H ->] | [_ ->]]; lra.
Qed.

Lemma loan_loop_entries (ys : list Z) (rate payment b : Q) :
  Forall (fun e =>
            le_payment e = payment /\
            le_interest e + le_principal e == payment /\
            0 <= le_balance e)
         (loan_loop ys rate payment b).
Proof.
  revert b. induction ys as [| y ys IH]; intro b; [constructor |].
  rewrite loan_loop_cons. constructor; [| apply IH].
  cbn [le_payment le_interest le_principal le_balance].
  split; [reflexivity |]. split; [ring | apply max_zero_nonneg].
Qed.

Lemma loan_schedule_inv (principal rate : Q) (term : Z)
      (sched : list loan_entry) :
  loan_schedule principal rate term = Ok sched ->
  exists payment,
    loan_payment principal rate term = Ok payment /\
    sched = loan_loop (range1 term) rate payment principal.
Proof.
  unfold loan_schedule. intro H.
  apply bind_ok_inv in H as (payment & Hp & H). injection H as <-. eauto.
Qed.

(** X5: whatever its arguments, a schedule that is returned has one
    entry per year [1 .. term_years] in order (none for a term below 1),
    every entry carries the same payment, splits it into interest and
    principal, and has a non-negative ending balance. *)
Theorem loan_schedule_shape (principal rate : Q) (term : Z)
        (sched : list loan_entry) :
  loan_schedule principal rate term = Ok sched ->
  List.length sched = Z.to_nat term /\
  map le_year sched = range1 term /\
  exists payment,
    loan_payment principal rate term = Ok payment /\
    Forall (fun e =>
              le_payment e = payment /\
              le_interest e + le_principal e == payment /\
              0 <= le_balance e)
           sched.
Proof.
  intro H. apply loan_schedule_inv in H as (payment & Hp & ->).
  split; [now rewrite loan_loop_length, range1_length |].
  split; [apply loan_loop_years |].
  exists payment. split; [exact Hp | apply loan_loop_entries].
Qed.

Lemma short_loan_ok :
  is_ok (loan_schedule 3150000 0.045 2) = true.
Proof. vm_compute. reflexivity. Qed.

Lemma loan_schedule_shape_witness :
  exists sched,
    loan_schedule 3150000 0.045 2 = Ok sched /\
    List.length sched = 2%nat /\ map le_year sched = [1%Z; 2%Z].
Proof.
  destruct (is_ok_inv _ short_loan_ok) as [sched Hs].
  exists sched. split; [exact Hs |].
  destruct (loan_schedule_shape 3150000 0.045 2 sched Hs) as (H1 & H2 & _).
  split; [exact H1 | exact H2].
Defined.

Lemma loan_loop_zero_rate (ys : list Z) (rate payment b : Q) :
  rate == 0 ->
  Forall (fun e =>
            le_payment e = payment /\ le_interest e == 0 /\
            le_principal e == payment)
         (loan_loop ys rate payment b).
Proof.
  intro Hr. revert b. induction ys as [| y ys IH]; intro b;
    [constructor |].
  rewrite loan_loop_cons. constructor; [| apply IH].
  cbn [le_payment le_interest le_principal].
  split; [reflexivity |]. rewrite Hr. split; ring.
Qed.

(** X6: at a rate of exactly zero every entry has the payment
    [principal / term_years], no interest, and the whole payment as
    principal. *)
Theorem loan_schedule_zero_rate (principal rate : Q) (term : Z) :
  rate == 0 -> (0 < term)%Z ->
  exists sched,
    loan_schedule principal rate term = Ok sched /\
    List.length sched = Z.to_nat term /\
    Forall (fun e =>
              le_payment e = principal / inject_Z term /\
              le_interest e == 0 /\
              le_principal e == principal / inject_Z term)
           sched.
Proof.
  intros Hr Ht.
  destruct (loan_payment_valid principal rate term) as (payment & Hp & Hz & _);
    [lra | exact Ht |].
  specialize (Hz Hr). subst payment.
  unfold loan_schedule. rewrite Hp. cbn [Py.bind].
  eexists. split; [reflexivity |].
  split; [now rewrite loan_loop_length, range1_length |].
  now apply loan_loop_zero_rate.
Qed.

Lemma loan_schedule_zero_rate_witness :
  exists sched,
    loan_schedule 1200 0 12 = Ok sched /\
    List.length sched = 12%nat /\
    Forall (fun e =>
              le_payment e = 1200 / inject_Z 12 /\
              le_interest e == 0 /\
              le_principal e == 1200 / inject_Z 12)
           sched.
Proof.
  apply (loan_schedule_zero_rate 1200 0 12); [reflexivity | lia].
Defined.

Lemma loan_step_bounds (rate payment limit b : Q) :
  0 <= rate -> limit * rate <= payment -> 0 <= b <= limit ->
  0 <= b * rate <= payment /\
  0 <= Py.max (b - (payment - b * rate)) 0 <= b.
Proof.
  intros Hr Hpay Hb.
  assert (Hint : 0 <= b * rate <= payment).
  { split; [apply Qmult_le_0_compat; lra |].
    apply Qle_trans with (limit * rate); [| exact Hpay].
    apply Qmult_le_compat_r; lra. }
  split; [exact Hint |].
  destruct (max_cases (b - (payment - b * rate)) 0)
    as [[H ->] | [H ->]]; lra.
Qed.

Lemma loan_loop_declining (ys : list Z) (rate payment limit b : Q) :
  0 <= rate -> limit * rate <= payment -> 0 <= b <= limit ->
  forall i e,
    nth_error (loan_loop ys rate payment b) i = Some e ->
    0 <= le_interest e <= payment /\ 0 <= le_principal e /\
    0 <= le_balance e <= b.
Proof.
  intros Hr Hpay. revert b.
  induction ys as [| y ys IH]; intros b Hb i e Hi.
  - destruct i; discriminate Hi.
  - rewrite loan_loop_cons in Hi.
    destruct (loan_step_bounds rate payment limit b Hr Hpay Hb)
      as [Hint Hnext].
    destruct i as [| i]; cbn [nth_error] in Hi.
    + injection Hi as <-.
      cbn [le_interest le_principal le_balance]. repeat split; lra.
    + assert (Hin : 0 <= Py.max (b - (payment - b * rate)) 0 <= limit)
        by lra.
      destruct (IH _ Hin i e Hi) as (H1 & H2 & H3).
      repeat split; lra.
Qed.

Lemma loan_loop_never_rises (ys : list Z) (rate payment limit b : Q) :
  0 <= rate -> limit * rate <= payment -> 0 <= b <= limit ->
  forall i e1 e2,
    nth_error (loan_loop ys rate payment b) i = Some e1 ->
    nth_error (loan_loop ys rate payment b) (S i) = Some e2 ->
    le_balance e2 <= le_balance e1.
Proof.
  intros Hr Hpay. revert b.
  induction ys as [| y ys IH]; intros b Hb i e1 e2 H1 H2.
  - destruct i; discriminate H1.
  - rewrite loan_loop_cons in H1, H2.
    destruct (loan_step_bounds rate payment limit b Hr Hpay Hb)
      as [Hint Hnext].
    cbn [nth_error] in H2.
    assert (Hin : 0 <= Py.max (b - (payment - b * rate)) 0 <= limit)
      by lra.
    destruct i as [| i]; cbn [nth_error] in H1.
    + injection H1 as <-. cbn [le_balance].
      apply (loan_loop_declining ys rate payment limit _ Hr Hpay
               Hin 0%nat e2 H2).
    + apply (IH _ Hin i e1 e2 H1 H2).
Qed.

(** X7: in a returned schedule with a non-negative principal and rate
    and a payment that covers the first year's interest
    ([principal * rate <= payment]), every year's interest lies between
    0 and the payment, every principal part is non-negative, and the
    ending balance never rises from one year to the next nor exceeds
    the principal. *)
Theorem loan_balance_never_rises (principal rate : Q) (term : Z)
        (sched : list loan_entry) (payment : Q) :
  loan_schedule principal rate term = Ok sched ->
  loan_payment principal rate term = Ok payment ->
  0 <= principal -> 0 <= rate -> principal * rate <= payment ->
  Forall (fun e =>
            0 <= le_interest e <= payment /\ 0 <= le_principal e /\
            0 <= le_balance e <= principal)
         sched /\
  (forall i e1 e2,
      nth_error sched i = Some e1 -> nth_error sched (S i) = Some e2 ->
      le_balance e2 <= le_balance e1).
Proof.
  intros Hs Hp Hpr Hr Hpay.
  apply loan_schedule_inv in Hs as (payment' & Hp' & ->).
  rewrite Hp in Hp'. injection Hp' as <-.
  assert (Hin : 0 <= principal <= principal) by lra. split.
  - apply Forall_forall. intros e He. apply In_nth_error in He as [i Hi].
    apply (loan_loop_declining (range1 term) rate payment principal
             principal Hr Hpay Hin i e Hi).
  - apply (loan_loop_never_rises (range1 term) rate payment principal
             principal Hr Hpay Hin).
Qed.

Lemma short_loan_payment :
  exists payment,
    loan_payment 3150000 0.045 2 = Ok payment /\
    3150000 * 0.045 <= payment.
Proof.
  eexists. split; [vm_compute; reflexivity |].
  apply Qle_bool_iff. vm_compute. reflexivity.
Qed.

Lemma loan_balance_never_rises_witness :
  exists sched,
    loan_schedule 3150000 0.045 2 = Ok sched /\
    forall i e1 e2,
      nth_error sched i = Some e1 -> nth_error sched (S i) = Some e2 ->
      le_balance e2 <= le_balance e1.
Proof.
  destruct (is_ok_inv _ short_loan_ok) as [sched Hs].
  destruct short_loan_payment as (payment & Hp & Hle).
  exists sched. split; [exact Hs |].
  apply (loan_balance_never_rises 3150000 0.045 2 sched payment Hs Hp);
    [lra | lra | exact Hle].
Defined.





Lemma loan_loop_all_zero (ys : list Z) (rate payment b : Q) :
  payment == 0 -> b == 0 ->
  Forall (fun e =>
            le_payment e == 0 /\ le_interest e == 0 /\
            le_principal e == 0 /\ le_balance e == 0)
         (loan_loop ys rate payment b).
Proof.
  intros Hp. revert b. induction ys as [| y ys IH]; intros b Hb;
    [constructor |].
  rewrite loan_loop_cons.
  assert (Hm : Py.max (b - (payment - b * rate)) 0 == 0).
  { destruct (max_cases (b - (payment - b * rate)) 0)
      as [[_ ->] | [_ ->]]; [rewrite Hp, Hb; ring | reflexivity]. }
  constructor; [| now apply IH].
  cbn [le_payment le_interest le_principal le_balance].
  repeat split; try assumption; rewrite ?Hp, Hb; ring.
Qed.

(** X9: a loan of zero principal is not an error: whenever its payment
    can be computed, the schedule is all zero. *)
Theorem loan_schedule_zero_principal (principal rate : Q) (term : Z)
        (sched : list loan_entry) :
  principal == 0 ->
  loan_schedule principal rate term = Ok sched ->
  Forall (fun e =>
            le_payment e == 0 /\ le_interest e == 0 /\
            le_principal e == 0 /\ le_balance e == 0)
         sched.
Proof.
  intros Hz H. apply loan_schedule_inv in H as (payment & Hp & ->).
  apply loan_loop_all_zero; [| exact Hz].
  eapply loan_payment_zero_principal; [exact Hz | exact Hp].
Qed.

Lemma zero_loan_ok : is_ok (loan_schedule 0 0.045 3) = true.
Proof. vm_compute. reflexivity. Qed.

Lemma loan_schedule_zero_principal_witness :
  exists sched,
    loan_schedule 0 0.045 3 = Ok sched /\
    Forall (fun e =>
              le_payment e == 0 /\ le_interest e == 0 /\
              le_principal e == 0 /\ le_balance e == 0)
           sched.
Proof.
  destruct (is_ok_inv _ zero_loan_ok) as [sched Hs].
  exists sched. split; [exact Hs |].
  exact (loan_schedule_zero_principal 0 0.045 3 sched
           (Qeq_refl 0) Hs).
Defined.

(** X10: a negative [term_years] is not rejected: a schedule that is
    returned for it is empty, and at a rate of exactly zero one is
    always returned. *)
Theorem loan_schedule_negative_term (principal rate : Q) (term : Z) :
  (term < 0)%Z ->
  (forall sched,
      loan_schedule principal rate term = Ok sched -> sched = []) /\
  (rate == 0 -> loan_schedule principal rate term = Ok []).
Proof.
  intro Ht. split.
  - intros sched Hs. apply loan_schedule_inv in Hs as (payment & _ & ->).
    now rewrite range1_nonpos by lia.
  - intro Hr. unfold loan_schedule, loan_payment.
    replace (neqb rate 0) with false
      by (symmetry; now apply neqb_false).
    rewrite div_ok.
    + cbn [Py.bind]. now rewrite range1_nonpos by lia.
    + intro H. unfold Qeq in H. simpl in H. lia.
Qed.

Lemma loan_schedule_negative_term_witness :
  loan_schedule 3150000 0 (-3) = Ok [].
Proof.
  apply (proj2 (loan_schedule_negative_term 3150000 0 (-3) ltac:(lia))).
  reflexivity.
Defined.

(* ================================================================== *)
(** ** The yearly cash-flow build-up *)

Lemma traverse_ok_nth {A B} (f : A -> result B) (xs : list A)
      (ys : list B) (i : nat) (y : B) :
  traverse f xs = Ok ys -> nth_error ys i = Some y ->
  exists x, nth_error xs i = Some x /\ f x = Ok y.
Proof.
  intro H. apply traverse_ok_Forall2 in H. revert i.
  induction H as [| x0 y0 xs ys H0 _ IH]; intros i Hi.
  - destruct i; discriminate Hi.
  - destruct i as [| i]; cbn [nth_error] in *.
    + injection Hi as <-. eauto.
    + now apply IH.
Qed.

Lemma range1_nth (n : Z) (i : nat) (y : Z) :
  nth_error (range1 n) i = Some y ->
  y = Z.of_nat (S i) /\ (i < Z.to_nat n)%nat.
Proof.
  unfold range1. rewrite nth_error_map, nth_error_seq.
  destruct (i <? Z.to_nat n)%nat eqn:E; [| discriminate].
  apply Nat.ltb_lt in E. cbn [option_map]. intro H. injection H as <-.
  split; [lia | exact E].
Qed.

Lemma debt_service_of_schedule (rate payment principal : Q) (term y : Z) :
  (1 <= y)%Z ->
  debt_service_of (loan_loop (range1 term) rate payment principal) y =
  Ok (if (y <=? term)%Z then payment else 0).
Proof.
  intro Hy. unfold debt_service_of.
  rewrite loan_loop_length, range1_length.
  destruct (y <=? term)%Z eqn:E.
  - apply Z.leb_le in E.
    replace (y <=? Z.of_nat (Z.to_nat term))%Z with true
      by (symmetry; apply Z.leb_le; lia).
    destruct (nth_error _ (Z.to_nat (y - 1))) as [e |] eqn:Hn.
    + apply nth_error_In, loan_loop_payment in Hn. now rewrite Hn.
    + apply nth_error_None in Hn.
      rewrite loan_loop_length, range1_length in Hn. lia.
  - apply Z.leb_gt in E.
    replace (y <=? Z.of_nat (Z.to_nat term))%Z with false
      by (symmetry; apply Z.leb_gt; lia).
    reflexivity.
Qed.

(** Every row of the yearly loop, by its index. *)
Lemma year_rows_nth (proj : project) (fin : financing) (cfg : config)
      (rows : list year_row) :
  year_rows proj fin cfg = Ok rows ->
  List.length rows = Z.to_nat (project_life_years cfg) /\
  exists payment,
    loan_payment (debt_principal proj fin) (interest_rate fin)
      (term_years fin) = Ok payment /\
    forall i row,
      nth_error rows i = Some row ->
      (Z.of_nat (S i) <= project_life_years cfg)%Z /\
      row =
      mk_year_row
        (cashflow_of proj cfg (Z.of_nat (S i))
           (if (Z.of_nat (S i) <=? term_years fin)%Z then payment else 0))
        (revenue_of proj (Z.of_nat (S i)))
        (opex_of proj cfg (Z.of_nat (S i)))
        (if (Z.of_nat (S i) <=? term_years fin)%Z then payment else 0).
Proof.
  intro Hrows.
  destruct (year_rows_inv _ _ _ _ Hrows) as [loan Hloan].
  destruct (year_rows_defined proj fin cfg loan Hloan)
    as (rows' & Hrows' & Hlen & _).
  rewrite Hrows in Hrows'. injection Hrows' as <-.
  split; [exact Hlen |].
  apply loan_schedule_inv in Hloan as (payment & Hpay & ->).
  exists payment. split; [exact Hpay |].
  intros i row Hi.
  unfold year_rows, loan_schedule in Hrows. rewrite Hpay in Hrows.
  cbn [Py.bind] in Hrows. rewrite year_loop_traverse in Hrows.
  destruct (traverse_ok_nth _ _ _ i row Hrows Hi) as (y & Hy & Hbody).
  apply range1_nth in Hy as [-> Hlt].
  split; [lia |].
  unfold year_body in Hbody.
  rewrite debt_service_of_schedule in Hbody by lia.
  cbn [Py.bind] in Hbody.
  rewrite div_ok in Hbody by (apply inject_Z_pos_nonzero; lia).
  cbn [Py.bind] in Hbody. injection Hbody as <-. reflexivity.
Qed.

(** X11: the rows of the yearly loop follow the build-up year by year:
    revenue [capacity * cf * 8760 * (1 - degradation)^(y-1) * 1000 *
    ppa], opex [opex_annual * (1 + escalation)^(y-1)], the constant
    loan payment as debt service up to [term_years] and zero after, and
    the after-tax cash flow with depreciation [capex / years] added
    back; the series has one entry more than the horizon has years. *)
Theorem cash_flow_build_up (proj : project) (fin : financing)
        (cfg : config) (rows : list year_row) :
  year_rows proj fin cfg = Ok rows ->
  List.length (series_of proj fin rows)
  = S (Z.to_nat (project_life_years cfg)) /\
  exists payment,
    loan_payment (debt_principal proj fin) (interest_rate fin)
      (term_years fin) = Ok payment /\
    forall i row,
      nth_error rows i = Some row ->
      yr_revenue row = revenue_of proj (Z.of_nat (S i)) /\
      yr_opex row = opex_of proj cfg (Z.of_nat (S i)) /\
      yr_debt_service row =
        (if (Z.of_nat (S i) <=? term_years fin)%Z then payment else 0) /\
      yr_cashflow row =
        cashflow_of proj cfg (Z.of_nat (S i)) (yr_debt_service row).
Proof.
  intro Hrows.
  destruct (year_rows_nth proj fin cfg rows Hrows)
    as (Hlen & payment & Hpay & Hnth).
  split.
  { unfold series_of. cbn [List.length]. now rewrite length_map, Hlen. }
  exists payment. split; [exact Hpay |].
  intros i row Hi. destruct (Hnth i row Hi) as [_ ->].
  cbn [yr_revenue yr_opex yr_debt_service yr_cashflow]. auto.
Qed.

Lemma cash_flow_build_up_witness :
  exists rows,
    year_rows sunny_ridge short_financing short_config = Ok rows /\
    List.length (series_of sunny_ridge short_financing rows) = 4%nat.
Proof.
  destruct (is_ok_inv _ short_loan_rows_ok) as [rows Hrows].
  exists rows. split; [exact Hrows |].
  exact (proj1 (cash_flow_build_up sunny_ridge short_financing
                  short_config rows Hrows)).
Defined.

Lemma revenue_of_succ (proj : project) (i : nat) :
  ~ 1 - degradation_pct proj == 0 ->
  revenue_of proj (Z.of_nat (S (S i))) ==
  revenue_of proj (Z.of_nat (S i)) * (1 - degradation_pct proj).
Proof.
  intro Hq. unfold revenue_of.
  replace (Z.of_nat (S (S i)) - 1)%Z with (Z.of_nat i + 1)%Z by lia.
  replace (Z.of_nat (S i) - 1)%Z with (Z.of_nat i) by lia.
  rewrite Qpower_plus by exact Hq. rewrite Qpower_1_r. ring.
Qed.

(** X12: with positive capacity, capacity factor and price, revenue
    falls strictly from each year to the next when
    [0 < degradation_pct < 1], and stays at its year-1 value when
    [degradation_pct = 0]. *)
Theorem revenue_declines (proj : project) (fin : financing)
        (cfg : config) (rows : list year_row) :
  year_rows proj fin cfg = Ok rows ->
  0 < capacity_mw proj -> 0 < cf_year1 proj -> 0 < ppa_price proj ->
  (0 < degradation_pct proj < 1 ->
   forall i r1 r2,
     nth_error rows i = Some r1 -> nth_error rows (S i) = Some r2 ->
     0 < yr_revenue r2 < yr_revenue r1) /\
  (degradation_pct proj == 0 ->
   forall row,
     In row rows ->
     yr_revenue row ==
     capacity_mw proj * cf_year1 proj * 8760.0 * 1000.0 * ppa_price proj).
Proof.
  intros Hrows Hc Hf Hp.
  destruct (year_rows_nth proj fin cfg rows Hrows)
    as (_ & payment & _ & Hnth).
  assert (Hbase : 0 < capacity_mw proj * cf_year1 proj * 8760.0).
  { apply Qmult_lt_0_compat; [apply Qmult_lt_0_compat |]; lra. }
  split.
  - intros Hd i r1 r2 H1 H2.
    destruct (Hnth _ _ H1) as [_ ->]. destruct (Hnth _ _ H2) as [_ ->].
    cbn [yr_revenue].
    rewrite revenue_of_succ by lra.
    assert (Hpos : 0 < revenue_of proj (Z.of_nat (S i))).
    { unfold revenue_of.
      assert (Hq : 0 < (1 - degradation_pct proj) ^ (Z.of_nat (S i) - 1))
        by (apply Qpower_0_lt; lra).
      repeat apply Qmult_lt_0_compat; try lra. }
    set (rev := revenue_of proj (Z.of_nat (S i))) in *. nra.
  - intros Hd row Hin. apply In_nth_error in Hin as [i Hi].
    destruct (Hnth _ _ Hi) as [_ ->]. cbn [yr_revenue]. unfold revenue_of.
    assert (E : 1 - degradation_pct proj == 1) by (rewrite Hd; ring).
    rewrite E, Qpower_1. ring.
Qed.

Lemma revenue_declines_witness :
  exists rows,
    year_rows sunny_ridge short_financing short_config = Ok rows /\
    forall i r1 r2,
      nth_error rows i = Some r1 -> nth_error rows (S i) = Some r2 ->
      0 < yr_revenue r2 < yr_revenue r1.
Proof.
  destruct (is_ok_inv _ short_loan_rows_ok) as [rows Hrows].
  exists rows. split; [exact Hrows |].
  apply (revenue_declines sunny_ridge short_financing short_config rows
           Hrows); cbn; lra.
Defined.

(** X13: tax is floored at zero, so the after-tax cash flow never
    exceeds [revenue - opex - debt service + depreciation]; it equals
    that amount whenever the tax base times the rate is not positive,
    and otherwise equals [(1 - t) * (revenue - opex - debt service) +
    (1 + t) * depreciation]: depreciation is added back in full on top
    of its tax shield. *)
Theorem cashflow_tax_floor (proj : project) (fin : financing)
        (cfg : config) (rows : list year_row) :
  year_rows proj fin cfg = Ok rows ->
  Forall (fun row =>
            let dep := capex proj / inject_Z (project_life_years cfg) in
            let pre_tax :=
              yr_revenue row - yr_opex row - yr_debt_service row in
            let tax_due := (pre_tax - dep) * tax_rate cfg in
            yr_cashflow row <= pre_tax + dep /\
            (tax_due <= 0 -> yr_cashflow row == pre_tax + dep) /\
            (0 <= tax_due ->
             yr_cashflow row ==
             (1 - tax_rate cfg) * pre_tax + (1 + tax_rate cfg) * dep))
         rows.
Proof.
  intro Hrows.
  destruct (year_rows_nth proj fin cfg rows Hrows)
    as (_ & payment & _ & Hnth).
  apply Forall_forall. intros row Hin.
  apply In_nth_error in Hin as [i Hi]. destruct (Hnth _ _ Hi) as [_ ->].
  cbn [yr_revenue yr_opex yr_debt_service yr_cashflow].
  unfold cashflow_of, taxable_income_of, depreciation_of.
  set (rev := revenue_of proj (Z.of_nat (S i))).
  set (opx := opex_of proj cfg (Z.of_nat (S i))).
  set (ds := if (Z.of_nat (S i) <=? term_years fin)%Z then payment else 0).
  set (dep := capex proj / inject_Z (project_life_years cfg)).
  set (t := tax_rate cfg). cbn zeta.
  destruct (max_cases ((rev - opx - dep - ds) * t) 0.0)
    as [[Hle ->] | [Hlt ->]]; repeat split; intros; try lra; nra.
Qed.

Lemma cashflow_tax_floor_witness :
  exists rows,
    year_rows sunny_ridge short_financing short_config = Ok rows /\
    Forall (fun row =>
              yr_cashflow row <=
              yr_revenue row - yr_opex row - yr_debt_service row
              + capex sunny_ridge
                / inject_Z (project_life_years short_config))
           rows.
Proof.
  destruct (is_ok_inv _ short_loan_rows_ok) as [rows Hrows].
  exists rows. split; [exact Hrows |].
  eapply Forall_impl;
    [| exact (cashflow_tax_floor sunny_ridge short_financing short_config
                rows Hrows)].
  intros row H. apply H.
Defined.

(* ================================================================== *)
(** ** Further properties of [irr], the payback loop and the sweep *)

Lemma npv_division_by_zero_witness :
  1 + -1 == 0 /\ (2 <= List.length [(-100)%Q; 110%Q])%nat /\
  npv (-1) [-100; 110] = Raise ZeroDivisionError.
Proof.
  assert (H1 : 1 + -1 == 0) by reflexivity.
  assert (H2 : (2 <= List.length [(-100)%Q; 110%Q])%nat) by (simpl; lia).
  split; [exact H1 |]. split; [exact H2 |].
  exact (proj2 (npv_division_by_zero (-1) [-100; 110]) H1 H2).
Defined.

(** X14: an estimate that is an exact root of the NPV, with a slope
    outside the derivative guard, is returned by the first iteration. *)
Theorem irr_exact_root_fixed (cfs : list Q) (r tol : Q) (maxiter : Z) :
  ~ 1 + r == 0 -> npv_sum r cfs == 0 ->
  abs_tol_d_npv < Qabs (dnpv_sum r cfs) -> 0 < tol -> (0 < maxiter)%Z ->
  exists v, irr cfs r tol maxiter = Ok v /\ v == r.
Proof.
  intros Hr Hroot Hd Htol Hm. unfold irr.
  destruct (Z.to_nat maxiter) as [| n] eqn:E; [lia |].
  cbn [irr_loop]. rewrite (irr_body_defined cfs tol r Hr).
  replace (Qle_bool (Qabs (dnpv_sum r cfs)) abs_tol_d_npv) with false
    by (symmetry; apply leb_false; exact Hd).
  assert (Hnz : ~ dnpv_sum r cfs == 0).
  { intro H0. rewrite H0 in Hd. unfold abs_tol_d_npv in Hd. cbn in Hd. lra. }
  assert (Hn : newton_next cfs r == r).
  { unfold newton_next. rewrite Hroot. field. exact Hnz. }
  assert (Hs : Qabs (newton_next cfs r - r) == 0).
  { assert (E0 : newton_next cfs r - r == 0) by (rewrite Hn; ring).
    rewrite (Qabs_wd _ _ E0). reflexivity. }
  replace (Qle_bool tol (Qabs (newton_next cfs r - r))) with false
    by (symmetry; apply leb_false; rewrite Hs; exact Htol).
  cbn [Py.bind]. exists (newton_next cfs r). split; [reflexivity | exact Hn].
Qed.

Lemma irr_exact_root_fixed_witness :
  exists v,
    irr [-1300000; 729000; 729000] 0.08 0.000001 200 = Ok v /\ v == 0.08.
Proof.
  apply irr_exact_root_fixed.
  - lra.
  - vm_compute. reflexivity.
  - vm_compute. reflexivity.
  - lra.
  - lia.
Defined.

Lemma cumulative_sum_zero_head (flows : list Q) (t : nat) :
  cumulative_sum (0 :: flows) t == fold_right Qplus 0 (firstn t flows).
Proof.
  unfold cumulative_sum. cbn [firstn fold_right]. ring.
Qed.

(** X15: the payback loop looks at the flows after year 0 only: it
    returns the first year [t] whose partial sum [flows_1 + ... +
    flows_t] is strictly positive, whatever the year-0 entry, and
    [None] when no partial sum within the horizon is. *)
Theorem payback_partial_sums (x : Q) (flows : list Q) :
  match payback (x :: flows) with
  | Some y =>
      exists t : nat,
        y = Z.of_nat t /\ (1 <= t <= List.length flows)%nat /\
        0 < fold_right Qplus 0 (firstn t flows) /\
        forall s : nat,
          (1 <= s < t)%nat -> fold_right Qplus 0 (firstn s flows) <= 0
  | None =>
      forall s : nat,
        (1 <= s <= List.length flows)%nat ->
        fold_right Qplus 0 (firstn s flows) <= 0
  end.
Proof.
  pose proof (payback_skips_year_0 x flows) as H.
  destruct (payback (x :: flows)) as [y |]; cbn [is_payback] in H.
  - destruct H as (t & -> & Ht & Hpos & Hle). exists t.
    cbn [List.length] in Ht. repeat split; try lia.
    + now rewrite <- cumulative_sum_zero_head.
    + intros s Hs. rewrite <- cumulative_sum_zero_head. now apply Hle.
  - intros s Hs. rewrite <- cumulative_sum_zero_head. apply H.
    cbn [List.length]. lia.
Qed.

Lemma eval_point_raise_only (proj : project) (fin : financing)
      (cfg : config) (pt : Q * Q * Q) (e : exn) :
  eval_point proj fin cfg pt = Raise e -> e = ZeroDivisionError.
Proof.
  destruct pt as [[ppa_m capex_m] debt]. unfold eval_point. intro H.
  apply bind_raise_inv in H as [H | (out & _ & H)];
    [now apply compute_raise_only in H | discriminate].
Qed.

(** X16: [run_sensitivity] raises a [ValueError] exactly when the
    project or the financing record is missing. *)
Theorem run_sensitivity_errors (proj : option project)
        (fin : option financing) (cfg : config) :
  (exists msg, run_sensitivity proj fin cfg = Raise (ValueError msg)) <->
  proj = None \/ fin = None.
Proof.
  split.
  - intros [msg H]. destruct proj as [p |]; [| now left].
    destruct fin as [f |]; [| now right].
    apply sweep_raise_inv in H as (_ & pt & _ & _ & _ & H).
    apply eval_point_raise_only in H. discriminate H.
  - intros [-> | ->]; [| destruct proj]; cbn; eauto.
Qed.

Lemma run_sensitivity_errors_witness :
  exists msg,
    run_sensitivity (Some sunny_ridge) None short_config
    = Raise (ValueError msg).
Proof.
  apply (proj2 (run_sensitivity_errors (Some sunny_ridge) None
                  short_config)).
  now right.
Defined.

(** X17: every emitted row is the engine's answer at its own
    coordinates: the project with [ppa_price] and [capex] scaled by the
    row's multipliers, the financing with [debt_pct] replaced by the
    row's level, every other field as in the base records. *)
Theorem sensitivity_rows_reproducible (proj : project) (fin : financing)
        (cfg : config) (rows : list sens_row) :
  run_sensitivity (Some proj) (Some fin) cfg = Ok rows ->
  Forall (fun row =>
            In (sr_ppa_mult row) ppa_mults /\
            In (sr_capex_mult row) capex_mults /\
            In (sr_debt_pct row) (debt_levels (debt_pct fin)) /\
            compute_project_finance
              (mk_project (capacity_mw proj) (cf_year1 proj)
                 (degradation_pct proj)
                 (ppa_price proj * sr_ppa_mult row)
                 (capex proj * sr_capex_mult row) (opex_annual proj))
              (mk_financing (sr_debt_pct row) (interest_rate fin)
                 (term_years fin))
              cfg =
            Ok (mk_proforma (sr_irr row) (sr_npv row)
                  (sr_payback_year row) (sr_min_dscr row)))
         rows.
Proof.
  rewrite run_sensitivity_some, sweep_traverse. intro H.
  apply Forall_forall. intros row Hin.
  apply In_nth_error in Hin as [i Hi].
  destruct (traverse_ok_nth _ _ _ i row H Hi) as (pt & Hpt & Hev).
  apply nth_error_In in Hpt. destruct pt as [[ppa_m capex_m] debt].
  unfold grid_points in Hpt.
  apply in_flat_map in Hpt as (p' & Hp' & Hpt).
  apply in_flat_map in Hpt as (c' & Hc' & Hpt).
  apply in_map_iff in Hpt as (d' & Heq & Hd'). injection Heq as -> -> ->.
  unfold eval_point in Hev.
  apply bind_ok_inv in Hev as (out & Hout & Hev). injection Hev as <-.
  cbn [sr_ppa_mult sr_capex_mult sr_debt_pct sr_irr sr_npv
       sr_payback_year sr_min_dscr].
  repeat split; try assumption.
  unfold temp_proj, temp_fin in Hout. rewrite Hout. now destruct out.
Qed.

Lemma sensitivity_rows_reproducible_witness :
  exists rows,
    run_sensitivity (Some tiny_project) (Some (tiny_financing 0.85))
      tiny_config = Ok rows /\
    Forall (fun row => In (sr_ppa_mult row) ppa_mults) rows.
Proof.
  destruct (is_ok_inv _ tiny_sweep_ok_085) as [rows Hrows].
  exists rows. split; [exact Hrows |].
  eapply Forall_impl;
    [| exact (sensitivity_rows_reproducible tiny_project
                (tiny_financing 0.85) tiny_config rows Hrows)].
  intros row H. apply H.
Defined.

(** X18: the three debt levels are in ascending order only for a base
    in [0, 0.95]: above 0.95 the "raised" level is the cap 0.95, below
    the base, and below 0 the "lowered" level is 0, above the base. *)
Theorem debt_levels_order (base : Q) :
  exists lo hi,
    debt_levels base = [lo; base; hi] /\
    (0 <= base <= 0.95 -> lo <= base <= hi) /\
    (0.95 < base -> hi == 0.95 /\ hi < base) /\
    (base < 0 -> lo == 0 /\ base < lo).
Proof.
  unfold debt_levels.
  exists (Py.max 0.0 (base - 0.10)), (Py.min 0.95 (base + 0.10)).
  split; [reflexivity |].
  destruct (max_cases 0.0 (base - 0.10)) as [[H1 ->] | [H1 ->]];
    destruct (min_cases 0.95 (base + 0.10)) as [[H2 ->] | [H2 ->]];
    repeat split; intros; lra.
Qed.

Lemma debt_levels_order_witness :
  exists lo hi,
    debt_levels 1 = [lo; 1; hi] /\ hi == 0.95 /\ hi < 1.
Proof.
  destruct (debt_levels_order 1) as (lo & hi & E & _ & H & _).
  exists lo, hi. split; [exact E |]. apply H. lra.
Defined.

(* ================================================================== *)
(** ** [run_project_model] *)

(** X19: [run_project_model] raises a [ValueError] exactly when a
    record is missing, the project being looked up first.  A call that
    raises leaves [proforma_results] as it was; a call that returns
    appends exactly one row, which carries the project id and the
    returned metrics, the minimum DSCR in the column [max_dscr]. *)
Theorem run_project_model_outcomes (project_id : Z)
        (proj : option project) (fin : option financing) (cfg : config)
        (run_date : string) (table : list result_row) :
  let out := fst (run_project_model project_id proj fin cfg run_date table) in
  let table' :=
    snd (run_project_model project_id proj fin cfg run_date table) in
  (proj = None -> out = Raise (ValueError "No project found")) /\
  ((exists msg, out = Raise (ValueError msg)) <->
   proj = None \/ fin = None) /\
  (forall e, out = Raise e -> table' = table) /\
  (forall v,
      out = Ok v ->
      exists results row,
        v = (project_id, results) /\ table' = table ++ [row] /\
        rr_project_id row = project_id /\ rr_run_date row = run_date /\
        rr_npv_real row = pf_npv results /\
        rr_irr_real row = pf_irr results /\
        rr_payback_year row
        = option_map inject_Z (pf_payback_year results) /\
        rr_max_dscr row = pf_min_dscr results).
Proof.
  cbn zeta. unfold run_project_model.
  destruct proj as [p |]; [destruct fin as [f |] |].
  - destruct (compute_project_finance p f cfg) as [results | e] eqn:Hc;
      cbn [fst snd].
    + split; [discriminate |]. split.
      { split; [intros [msg H]; discriminate H
               | intros [H | H]; discriminate H]. }
      split; [intros e H; discriminate H |].
      intros v H. injection H as <-.
      exists results, (insert_row project_id run_date results).
      repeat split.
    + split; [discriminate |].
      pose proof (compute_raise_only p f cfg e Hc) as ->. split.
      { split; [intros [msg H]; discriminate H
               | intros [H | H]; discriminate H]. }
      split; [| intros v H; discriminate H].
      intros e H. reflexivity.
  - cbn [fst snd]. split; [discriminate |]. split.
    { split; [intros _; now right | intros _; eauto]. }
    split; [| intros v H; discriminate H].
    intros e H. reflexivity.
  - cbn [fst snd]. split; [reflexivity |]. split.
    { split; [intros _; now left | intros _; eauto]. }
    split; [| intros v H; discriminate H].
    intros e H. reflexivity.
Qed.

Lemma run_project_model_outcomes_witness :
  fst (run_project_model 7 None None short_config "2026-01-01" [])
  = Raise (ValueError "No project found").
Proof.
  apply (proj1 (run_project_model_outcomes 7 None None short_config
                  "2026-01-01" [])).
  reflexivity.
Defined.

(* ================================================================== *)
(** ** The database URL *)

Lemma engine_url_unset (db_url env_url : option string) (cfg : pyval)
      (db_path : string) :
  (db_url = None \/ db_url = Some EmptyString) ->
  (env_url = None \/ env_url = Some EmptyString) ->
  engine_url db_url env_url cfg db_path =
  match get cfg "database" with
  | AttributeError => AttributeError
  | Value database =>
      match get (if truthy database then database else VDict []) "url" with
      | AttributeError => AttributeError
      | Value cfg_url =>
          if truthy cfg_url then Value cfg_url
          else Value (VStr (String.append "sqlite:///" db_path))
      end
  end.
Proof.
  intros [-> | ->] [-> | ->]; reflexivity.
Qed.

(** X20: the URL handed to [create_engine] is the first non-empty one
    of the argument [db_url] and the variable [DB_URL], found without
    reading the configuration.  With both unset or empty the
    configuration decides: one that is not a dictionary ([None], as an
    empty settings file loads) fails with [AttributeError]; a
    dictionary without a [database] entry gives the SQLite file at
    [db_path].  A URL that is returned is never empty or [None]. *)
Theorem db_url_resolution (db_url env_url : option string) (cfg : pyval)
        (db_path : string) :
  (forall u,
      db_url = Some u -> u <> EmptyString ->
      engine_url db_url env_url cfg db_path = Value (VStr u)) /\
  (forall u,
      (db_url = None \/ db_url = Some EmptyString) ->
      env_url = Some u -> u <> EmptyString ->
      engine_url db_url env_url cfg db_path = Value (VStr u)) /\
  ((db_url = None \/ db_url = Some EmptyString) ->
   (env_url = None \/ env_url = Some EmptyString) ->
   ((forall items, cfg <> VDict items) ->
    engine_url db_url env_url cfg db_path = AttributeError) /\
   (forall items,
       cfg = VDict items -> truthy (lookup "database" items) = false ->
       engine_url db_url env_url cfg db_path
       = Value (VStr (String.append "sqlite:///" db_path)))) /\
  (forall v,
      engine_url db_url env_url cfg db_path = Value v -> truthy v = true).
Proof.
  assert (Hne : forall u, u <> EmptyString -> String.eqb u EmptyString = false).
  { intros u Hu. now apply String.eqb_neq. }
  split; [| split; [| split]].
  - intros u -> Hu. unfold engine_url. now rewrite (Hne u Hu).
  - intros u Hdb -> Hu.
    assert (Henv : get_default_db_url (Some u) cfg db_path = Value (VStr u)).
    { unfold get_default_db_url. now rewrite (Hne u Hu). }
    destruct Hdb as [-> | ->]; exact Henv.
  - intros Hdb Henv. rewrite (engine_url_unset _ _ cfg db_path Hdb Henv).
    split.
    + intro Hcfg. destruct cfg; try reflexivity.
      now contradiction (Hcfg items).
    + intros items -> Hfalsy. cbn [get]. rewrite Hfalsy. reflexivity.
  - intros v Hv.
    assert (Hstr : forall u, u <> EmptyString -> truthy (VStr u) = true).
    { intros u Hu. cbn [truthy]. now rewrite (Hne u Hu). }
    assert (Hcfg : forall w,
               match get cfg "database" with
               | AttributeError => AttributeError
               | Value database =>
                   match get (if truthy database then database
                              else VDict []) "url" with
                   | AttributeError => AttributeError
                   | Value cfg_url =>
                       if truthy cfg_url then Value cfg_url
                       else Value (VStr (String.append "sqlite:///" db_path))
                   end
               end = Value w -> truthy w = true).
    { intros w Hw. destruct (get cfg "database") as [database |];
        [| discriminate Hw].
      destruct (get _ "url") as [cfg_url |]; [| discriminate Hw].
      destruct (truthy cfg_url) eqn:Ht; injection Hw as <-;
        [exact Ht | reflexivity]. }
    unfold engine_url, get_default_db_url in Hv.
    destruct db_url as [u |].
    + destruct (String.eqb u EmptyString) eqn:Eu.
      * destruct env_url as [w |]; [| now apply Hcfg].
        destruct (String.eqb w EmptyString) eqn:Ew; [now apply Hcfg |].
        injection Hv as <-. cbn [truthy]. now rewrite Ew.
      * injection Hv as <-. cbn [truthy]. now rewrite Eu.
    + destruct env_url as [w |]; [| now apply Hcfg].
      destruct (String.eqb w EmptyString) eqn:Ew; [now apply Hcfg |].
      injection Hv as <-. cbn [truthy]. now rewrite Ew.
Qed.

Lemma db_url_resolution_witness :
  engine_url None (Some EmptyString) VNone "db/solriver_mvp.db"
  = AttributeError.
Proof.
  apply (proj1 (proj2 (proj2 (db_url_resolution None (Some EmptyString)
                                VNone "db/solriver_mvp.db")))).
  - now left.
  - now right.
  - discriminate.
Defined.
